(** * Async-Call: the call/response correlation protocol of holoflows-kit

    A shallow embedding of [src/Extension/Async-Call.ts].  One [AsyncCall]
    instance is a state machine: the closure variables of [AsyncCall] (the
    [map] of pending calls, the promises handed to callers, what was passed
    to [message.send], what was written to the console) form the [State];
    every [await] and every [.then] callback is a suspended [Task] that the
    scheduler resumes later. *)

From stdpp Require Import gmap strings list.

Set Warnings "-register-all".

(** ** JavaScript values *)

(** The values that travel as arguments, results and failures.  Objects,
    functions and [Error] instances carry the entries that
    [Reflect.defineMetadata] stored on them; primitives carry none.
    A value is plain data: an object has no properties but its own,
    object identity is not modelled, "mutating" an object yields the
    updated value, and of a function only the fact that it can be called
    is kept. *)
Inductive Value :=
| Undefined
| Null
| Bool (b : bool)
| Num (n : Z)
| Str (s : string)
| Obj (metadata : gmap string Value) (props : gmap string Value)
| Fun (metadata : gmap string Value)
| Err (metadata : gmap string Value) (message : string) (stack : Value).

(** [x !== null] *)
Definition notNull (x : Value) : bool :=
match x with Null => false | _ => true end.

(** ToBoolean, as used by [if (data.error)]. *)
Definition truthy (x : Value) : bool :=
match x with
| Undefined | Null => false
| Bool b => b
| Num n => negb (n =? 0)%Z
| Str s => negb (String.eqb s "")
| Obj _ _ | Fun _ | Err _ _ _ => true
end.

(** [function isObject(it)]: [typeof it === 'object' ? it !== null :
    typeof it === 'function']. *)
Definition isObject (it : Value) : bool :=
match it with
| Obj _ _ | Fun _ | Err _ _ _ => true
| _ => false
end.

(** [it instanceof Error] *)
Definition instanceofError (it : Value) : bool :=
match it with Err _ _ _ => true | _ => false end.

(** The entries of Reflect's own-metadata table of [it]; [None] when [it]
    is not an object. *)
Definition ownMetadata (it : Value) : option (gmap string Value) :=
match it with
| Obj md _ | Fun md | Err md _ _ => Some md
| _ => None
end.

Definition setOwnMetadata (md : gmap string Value) (it : Value) : Value :=
match it with
| Obj _ ps => Obj md ps
| Fun _ => Fun md
| Err _ m st => Err md m st
| other => other
end.

(** [Object.entries(it)] as a record, for the values this file passes to
    it: the own enumerable properties. *)
Definition entries (it : Value) : gmap string Value :=
match it with Obj _ ps => ps | _ => ∅ end.

(** [it.name] for a value that is neither [null] nor [undefined]. *)
Definition getProp (it : Value) (name : string) : Value :=
match it with
| Obj _ ps => default Undefined (ps !! name)
| Err _ m st =>
      if String.eqb name "message" then Str m
      else if String.eqb name "stack" then st
      else Undefined
| _ => Undefined
end.

Definition nullish (it : Value) : bool :=
match it with Undefined | Null => true | _ => false end.

(** What [resolve] follows instead of fulfilling with: an object whose
    [then] can be called. *)
Definition thenable (it : Value) : bool :=
match it with
| Obj _ ps => match ps !! "then" with Some (Fun _) => true | _ => false end
| _ => false
end.

(** A raw payload as the transport hands it over is opaque to this file,
    except for what [getMetadata] reads from it: whether it is an object,
    and which metadata Reflect holds for it. *)
Class Reflected (A : Type) := reflectOwn : A → option (gmap string Value).
#[global] Instance Value_reflected : Reflected Value := ownMetadata.

(** ** The outcome of an asynchronous operation *)

Inductive Settlement (A : Type) :=
| Resolves (a : A)
| Rejects (reason : Value).
Arguments Resolves {A} a.
Arguments Rejects {A} reason.

(** [interface Serialization].  [serialization] and [deserialization] are
    typed [any]; the file uses them at two types, the [Request] on the call
    channel and the [Response] on the return channel, so a serializer is
    given at each. *)
Record Serialization (A W : Type) := {
  serialization : A → Settlement W;
  deserialization : W → Settlement A
}.
Arguments serialization {A W} _ _.
Arguments deserialization {A W} _ _.

(** [NoSerialization]: both directions return their argument. *)
Definition NoSerialization (A : Type) : Serialization A A :=
  {| serialization := fun from => Resolves from;
     deserialization := fun serialized => Resolves serialized |}.

(** ** Requests and responses *)

Module Request.
(** [interface Request]; [metadata = None] is the deleted field. *)
Record t := {
  method : string;
  args : list Value;
  callId : string;
  metadata : option (list (option (gmap string Value)))
}.
End Request.

Module Response.
(** [interface Response].  [error] holds whatever was put under that key
    (line 179 puts [{message, stack}] for an [Error] and the thrown value
    itself otherwise); [None] is the missing field, and so is
    [metadata = None]. *)
Record t := {
  return_ : Value;
  callId : string;
  method : string;
  error : option Value;
  metadata : option (gmap string Value)
}.
End Response.

(** The object literal [{ message: ..., stack: ... }]. *)
Definition errorInfo (message stack : Value) : Value :=
  Obj ∅ (<["message" := message]> (<["stack" := stack]> ∅)).


(** ** The caller's promises and the console *)

(** [Following v]: [resolve] was called with the thenable [v].  The
    promise is locked to [v]: it is not settled by that call, later calls
    of its [resolve] and [reject] do nothing, and it is [v.then], not this
    file, that settles it, if anything does. *)
Inductive PromiseState :=
| Pending
| Fulfilled (value : Value)
| Rejected (reason : Value)
| Following (thenable : Value).

Definition settled (p : PromiseState) : bool :=
  match p with Fulfilled _ | Rejected _ => true | _ => false end.

(** [resolve] or [reject] has been called. *)
Definition locked (p : PromiseState) : bool :=
  match p with Pending => false | _ => true end.

(** [resolve(value)], by the state it leaves a pending promise in. *)
Definition resolveWith (value : Value) : PromiseState :=
  if thenable value then Following value else Fulfilled value.

Inductive ConsoleLine :=
| console_debug (key : string) (data : Request.t)
| console_log (key method : string) (args : list Value) (callId : string)
| console_error (message : Value) (callId : string) (stack : Value).

(** What an async listener's own promise was rejected with.  The
  [MessageCenter] interface types the callback as returning [void], so
  nothing is attached to that promise. *)
Inductive Fault :=
| Thrown (reason : Value)
| TypeError.

Inductive PropertyKey :=
| StringKey (s : string)
| SymbolKey (description : string).

(** [type Default = Record<string, (...args) => Promise<any>>]: an async
  function receives [this] and the arguments and settles. *)
Abbreviation Executor := (Value → list Value → Settlement Value).

(** What the call of a member of the implementation comes to (lines
  153-154): it returns something, given here by what [await] makes of it,
  or it throws before it returns, as the call of a member that is not a
  function does. *)
Inductive Completion :=
| Returns (promise : Settlement Value)
| Throws (reason : Value).

Abbreviation Member := (Value → list Value → Completion).

Definition async (executor : Executor) : Member :=
  fun this args => Returns (executor this args).

(** The implementation object.  [implementation[name]] (line 139) finds
  the properties of the object itself and those of its prototype chain,
  which for an object literal ends in [Object.prototype].  A property
  that holds a falsy value is left out of both: line 140 takes it for a
  missing one. *)
Record Implementation := {
  own : gmap string Member;
  inherited : gmap string Member
}.

(** [implementation[name]] *)
Definition member (implementation : Implementation) (name : string)
  : option Member :=
  match own implementation !! name with
  | Some m => Some m
  | None => inherited implementation !! name
  end.

(** An implementation object without a prototype, as
  [Object.create(null)] gives: [∅] has no member at all, and
  [{[ name := f ]}] has the async function [f] for its one member. *)
#[global] Instance Implementation_empty : Empty Implementation :=
  {| own := ∅; inherited := ∅ |}.
#[global] Instance Implementation_singleton
  : SingletonM string Executor Implementation :=
  fun name f => {| own := {[ name := async f ]}; inherited := ∅ |}.

(** ** [Map<string, PromiseParam>]

    A JavaScript [Map] keeps its entries in insertion order; [set] on a key
    that is present replaces the value in place.  A [PromiseParam] is the
    [[resolve, reject]] pair of one promise, here the index of that promise
    in the list of promises. *)
Module Map.
Fixpoint get (k : string) (m : list (string * nat)) : option nat :=
  match m with
  | [] => None
  | (k', v) :: rest => if String.eqb k k' then Some v else get k rest
  end.

Fixpoint set (k : string) (v : nat) (m : list (string * nat))
  : list (string * nat) :=
  match m with
  | [] => [(k, v)]
  | (k', v') :: rest =>
      if String.eqb k k' then (k, v) :: rest else (k', v') :: set k v rest
  end.

Fixpoint delete (k : string) (m : list (string * nat))
  : list (string * nat) :=
  match m with
  | [] => []
  | (k', v') :: rest =>
      if String.eqb k k' then rest else (k', v') :: delete k rest
  end.

Definition keys (m : list (string * nat)) : list string := m.*1.
Definition values (m : list (string * nat)) : list nat := m.*2.
End Map.

(** ** One [AsyncCall] instance *)

(** The host: whether reflect-metadata is loaded (the two [in Reflect]
    tests), the engine's ToString, and the stack text the engine records
    for an [Error] created with a given message. *)
Record Host := {
  has_getOwnMetadataKeys : bool;
  has_defineMetadata : bool;
  ToString : Value → string;
  stackTrace : string → string
}.

Section AsyncCall.

(** The payload types of the call and of the return channel. *)
Context {CallWire ReturnWire : Type}.
Context `{!Reflected CallWire, !Reflected ReturnWire}.

(** A message on [CALL] or on [RESPONSE]. *)
Inductive Packet :=
| OnCall (data : CallWire)
| OnReturn (data : ReturnWire).

(** [options.serializer], at the two types it is used at. *)
Record Serializer := {
  onCall : Serialization Request.t CallWire;
  onReturn : Serialization Response.t ReturnWire
}.

(** [interface AsyncCallOptions].  Of the [MessageCenter] the model keeps
    the packets that its [send] hands to this instance's own listeners
    before it returns; it is [fun _ => []] for a transport that only
    delivers later. *)
Record AsyncCallOptions := {
  key : string;
  serializer : Serializer;
  MessageCenter : Packet → list Packet;
  dontThrowOnNotImplemented : bool;
  writeToConsole : bool
}.

(** The defaults of lines 122-129, for the options that have one here. *)
Definition defaultOptions (serializer : Serializer)
    (MessageCenter : Packet → list Packet) : AsyncCallOptions :=
  {| key := "default"; serializer := serializer;
     MessageCenter := MessageCenter;
     dontThrowOnNotImplemented := true; writeToConsole := true |}.

Definition CALL (o : AsyncCallOptions) : string := key o +:+ "-call".
Definition RESPONSE (o : AsyncCallOptions) : string := key o +:+ "-return".

Variable host : Host.
Variable implementation : Implementation.
Variable options : AsyncCallOptions.

(** *** Metadata (lines 227-249) *)

Definition getMetadata {A : Type} `{!Reflected A} (obj : A)
  : option (gmap string Value) :=
  match reflectOwn obj with
  | None => None
  | Some md => if has_getOwnMetadataKeys host then Some md else None
  end.

(** [Object.entries(metadata).forEach(([key, value]) =>
    Reflect.defineMetadata(key, value, obj))]: every entry of [metadata]
    is written over what [obj] had. *)
Definition applyMetadata (obj : Value)
    (metadata : option (gmap string Value)) : Value :=
  if negb (isObject obj) then obj
  else match metadata with
       | None => obj
       | Some md =>
           if negb (has_defineMetadata host) then obj
           else setOwnMetadata (md ∪ default ∅ (ownMetadata obj)) obj
       end.

Definition defineMetadata (obj : Value) (k : string) (data : Value)
  : Value :=
  if negb (isObject obj) then obj
  else if negb (has_defineMetadata host) then obj
  else setOwnMetadata (<[k := data]> (default ∅ (ownMetadata obj))) obj.

(** [new Error(message)] *)
Definition newError (message : Value) : Value :=
  let text := match message with
              | Undefined => ""
              | Str s => s
              | other => ToString host other
              end in
  Err ∅ text (Str (stackTrace host text)).

(** [err.stack = stack] *)
Definition setStack (stack : Value) (err : Value) : Value :=
  match err with
  | Err md m _ => Err md m stack
  | other => other
  end.

(** The object that the [catch] block serializes (lines 177-182). *)
Definition errorResponse (data : Request.t) (err : Value) : Response.t :=
  {| Response.method := Request.method data;
     Response.error :=
       Some (if instanceofError err
             then errorInfo (getProp err "message") (getProp err "stack")
             else err);
     Response.return_ := Undefined;
     Response.callId := Request.callId data;
     Response.metadata := None |}.

(** *** State *)

(** A continuation waiting for an asynchronous operation, together with
    the settlement it will be resumed with. *)
Inductive Task :=
| AfterSerializeRequest (resolver : nat) (id : string)
    (r : Settlement CallWire)                       (* line 265 *)
| AfterDeserializeCall (metadataOnRequest : option (gmap string Value))
    (r : Settlement Request.t)                      (* line 137 *)
| AfterExecutor (data : Request.t) (r : Settlement Value)   (* line 165 *)
| AfterSerializeResult (data : Request.t)
    (r : Settlement ReturnWire)                     (* line 174 *)
| AfterSerializeError (r : Settlement ReturnWire)   (* line 177 *)
| AfterDeserializeResponse
    (metadataOnResponse : option (gmap string Value))
    (r : Settlement Response.t).                    (* line 188 *)

Record State := {
  map : list (string * nat);
  promises : list PromiseState;
  sent : list Packet;
  console : list ConsoleLine;
  tasks : list Task;
  listenerFaults : list Fault
}.

Definition init : State :=
  {| map := []; promises := []; sent := []; console := []; tasks := [];
     listenerFaults := [] |}.

Definition with_map (f : list (string * nat) → list (string * nat))
    (s : State) : State :=
  {| map := f (map s); promises := promises s; sent := sent s;
     console := console s; tasks := tasks s;
     listenerFaults := listenerFaults s |}.

Definition with_promises (f : list PromiseState → list PromiseState)
    (s : State) : State :=
  {| map := map s; promises := f (promises s); sent := sent s;
     console := console s; tasks := tasks s;
     listenerFaults := listenerFaults s |}.

Definition with_tasks (f : list Task → list Task) (s : State) : State :=
  {| map := map s; promises := promises s; sent := sent s;
     console := console s; tasks := f (tasks s);
     listenerFaults := listenerFaults s |}.

(** [console.debug], [console.log], [console.error] *)
Definition write (line : ConsoleLine) (s : State) : State :=
  {| map := map s; promises := promises s; sent := sent s;
     console := console s ++ [line]; tasks := tasks s;
     listenerFaults := listenerFaults s |}.

Definition record_sent (pkt : Packet) (s : State) : State :=
  {| map := map s; promises := promises s; sent := sent s ++ [pkt];
     console := console s; tasks := tasks s;
     listenerFaults := listenerFaults s |}.

(** The async listener ends by throwing. *)
Definition fail (f : Fault) (s : State) : State :=
  {| map := map s; promises := promises s; sent := sent s;
     console := console s; tasks := tasks s;
     listenerFaults := listenerFaults s ++ [f] |}.

Definition await (t : Task) : State → State :=
  with_tasks (fun ts => ts ++ [t]).

(** Calling [resolve] or [reject] of promise [p]: it puts the promise in
    the state [outcome] if neither was called before, and does nothing
    otherwise. *)
Definition settle (p : nat) (outcome : PromiseState) : State → State :=
  with_promises (fun ps =>
    match ps !! p with
    | Some Pending => <[p := outcome]> ps
    | _ => ps
    end).

Definition promise (s : State) (p : nat) : PromiseState :=
  default Pending (promises s !! p).

(** *** The listeners up to their first [await] (lines 135-137, 186-188) *)

Definition listen (pkt : Packet) : State → State :=
  match pkt with
  | OnCall _data =>
      await (AfterDeserializeCall (getMetadata _data)
               (deserialization (onCall (serializer options)) _data))
  | OnReturn _data =>
      await (AfterDeserializeResponse (getMetadata _data)
               (deserialization (onReturn (serializer options)) _data))
  end.

(** [message.send(event, data)] *)
Definition send (pkt : Packet) (s : State) : State :=
  foldl (fun acc d => listen d acc) (record_sent pkt s)
    (MessageCenter options pkt).

(** *** The Remote Surface (lines 253-269) *)

Definition buildRequest (method : string) (args : list Value)
    (id : string) : Request.t :=
  let metadata := getMetadata <$> args in
  let metadataUsed := existsb notNull args in
  {| Request.method := method; Request.args := args;
     Request.callId := id;
     Request.metadata := if metadataUsed then Some metadata else None |}.

(** The promise executor of line 255; [id] is what
    [Math.random().toString(36).slice(2)] evaluated to. *)
Definition invoke (method : PropertyKey) (args : list Value)
    (id : string) (s : State) : State :=
  let p := length (promises s) in
  match method with
  | SymbolKey _ =>
      with_promises
        (fun ps => ps ++ [Rejected (Str "Only string can be keys")]) s
  | StringKey m =>
      await (AfterSerializeRequest p id
               (serialization (onCall (serializer options))
                  (buildRequest m args id)))
        (with_promises (fun ps => ps ++ [Pending]) s)
  end.

(** The two callbacks of [.then] at lines 265-268. *)
Definition afterSerializeRequest (p : nat) (id : string)
    (r : Settlement CallWire) (s : State) : State :=
  match r with
  | Resolves data => with_map (Map.set id p) (send (OnCall data) s)
  | Rejects reason => settle p (Rejected reason) s
  end.

(** *** The Request Dispatcher (lines 138-184) *)

(** The [catch (err)] block.  [err.message] throws when [err] is [null] or
    [undefined]. *)
Definition catch (data : Request.t) (err : Value) (s : State) : State :=
  let respond (s : State) :=
    await (AfterSerializeError
             (serialization (onReturn (serializer options))
                (errorResponse data err))) s in
  if writeToConsole options then
    if nullish err then fail TypeError s
    else respond (write (console_error (getProp err "message")
                           (Request.callId data) (getProp err "stack")) s)
  else respond s.

(** [data.metadata.forEach((meta, index) => applyMetadata(args[index],
    meta))]; an entry past the end of [args] meets [undefined] and does
    nothing. *)
Definition readMetadataOnArgs (args : list Value)
    (metadata : option (list (option (gmap string Value))))
  : list Value :=
  match metadata with
  | None => args
  | Some metas =>
      imap (fun index arg =>
              match metas !! index with
              | Some meta => applyMetadata arg meta
              | None => arg
              end) args
  end.

Definition notImplemented (method : string) : string :=
  "Remote-call: " +:+ method +:+ "() not implemented!".

(** Lines 153-154: the executor is called with the arguments, on an
    object that carries the metadata of the raw payload when there is
    some. *)
Definition callExecutor (executor : Member)
    (metadataOnRequest : option (gmap string Value)) (args : list Value)
  : Completion :=
  match metadataOnRequest with
  | Some _ => executor (applyMetadata (Obj ∅ ∅) metadataOnRequest) args
  | None => executor Undefined args
  end.

Definition afterDeserializeCall
    (metadataOnRequest : option (gmap string Value))
    (r : Settlement Request.t) (s : State) : State :=
  match r with
  | Rejects reason => fail (Thrown reason) s
  | Resolves data =>
      match member implementation (Request.method data) with
      | None =>
          if dontThrowOnNotImplemented options
          then write (console_debug (key options) data) s
          else catch data
                 (newError (Str (notImplemented (Request.method data)))) s
      | Some executor =>
          let args := readMetadataOnArgs (Request.args data)
                        (Request.metadata data) in
          match callExecutor executor metadataOnRequest args with
          | Throws err => catch data err s
          | Returns promise =>
              let s := if writeToConsole options
                       then write (console_log (key options)
                                     (Request.method data) args
                                     (Request.callId data)) s
                       else s in
              await (AfterExecutor data promise) s
          end
      end
  end.

Definition afterExecutor (data : Request.t) (r : Settlement Value)
    (s : State) : State :=
  match r with
  | Resolves result =>
      await (AfterSerializeResult data
               (serialization (onReturn (serializer options))
                  {| Response.method := Request.method data;
                     Response.return_ := result;
                     Response.callId := Request.callId data;
                     Response.error := None;
                     Response.metadata := getMetadata result |})) s
  | Rejects err => catch data err s
  end.

Definition afterSerializeResult (data : Request.t)
    (r : Settlement ReturnWire) (s : State) : State :=
  match r with
  | Resolves payload => send (OnReturn payload) s
  | Rejects err => catch data err s
  end.

Definition afterSerializeError (r : Settlement ReturnWire) (s : State)
  : State :=
  match r with
  | Resolves response => send (OnReturn response) s
  | Rejects reason => fail (Thrown reason) s
  end.

(** *** The Response Dispatcher (lines 189-212) *)

(** The local [apply] of lines 192-201.  [defineMetadata] returns the
    object it annotated, and [applyMetadata] reads the entries of its
    second argument. *)
Definition apply (data : Response.t)
    (metadataOnResponse : option (gmap string Value)) (obj : Value)
  : Value :=
  applyMetadata obj
    (Some (entries
             (defineMetadata
                (applyMetadata (Obj ∅ ∅) (Response.metadata data))
                "async-call-response"
                (applyMetadata (Obj ∅ ∅) metadataOnResponse)))).

(** [if (data.error)]: the value under [error] when it is there and
    truthy. *)
Definition dataError (data : Response.t) : option Value :=
  match Response.error data with
  | Some e => if truthy e then Some e else None
  | None => None
  end.

Definition afterDeserializeResponse
    (metadataOnResponse : option (gmap string Value))
    (r : Settlement Response.t) (s : State) : State :=
  match r with
  | Rejects reason => fail (Thrown reason) s
  | Resolves data =>
      match Map.get (Response.callId data) (map s) with
      | None => s
      | Some p =>
          let s := with_map (Map.delete (Response.callId data)) s in
          match dataError data with
          | Some e =>
              let err := apply data metadataOnResponse
                           (setStack (getProp e "stack")
                              (newError (getProp e "message"))) in
              let s := settle p (Rejected err) s in
              if writeToConsole options
              then write (console_error (getProp e "message")
                            (Response.callId data) (getProp e "stack")) s
              else s
          | None =>
              settle p (resolveWith (apply data metadataOnResponse
                                       (Response.return_ data))) s
          end
      end
  end.

(** *** The scheduler *)

Definition run (t : Task) : State → State :=
  match t with
  | AfterSerializeRequest p id r => afterSerializeRequest p id r
  | AfterDeserializeCall md r => afterDeserializeCall md r
  | AfterExecutor data r => afterExecutor data r
  | AfterSerializeResult data r => afterSerializeResult data r
  | AfterSerializeError r => afterSerializeError r
  | AfterDeserializeResponse md r => afterDeserializeResponse md r
  end.

(** What can happen to an instance: the user calls a method of the proxy,
    the transport calls a listener, or a suspended continuation runs. *)
Inductive Event :=
| Invoke (method : PropertyKey) (args : list Value) (id : string)
| Deliver (pkt : Packet)
| Resume (n : nat).

Definition step (s : State) (e : Event) : State :=
  match e with
  | Invoke method args id => invoke method args id s
  | Deliver pkt => listen pkt s
  | Resume n =>
      match tasks s !! n with
      | None => s
      | Some t => run t (with_tasks (base.delete n) s)
      end
  end.

Definition steps (s : State) (es : list Event) : State := foldl step s es.

Inductive reachable : State → Prop :=
| reachable_init : reachable init
| reachable_step s e : reachable s → reachable (step s e).

End AsyncCall.

Arguments Packet : clear implicits.
Arguments Serializer : clear implicits.
Arguments AsyncCallOptions : clear implicits.
Arguments State : clear implicits.
Arguments Task : clear implicits.
Arguments Event : clear implicits.

(** ** Two instances joined by a transport

    The transport takes the packets one side passed to [send] and calls the
    other side's listener with them, each at most once, in any order and
    after any delay. *)

Inductive Side := Near | Far.

Section World.

Context {CallWire ReturnWire : Type}.
Context `{!Reflected CallWire, !Reflected ReturnWire}.

(** What one side was constructed with. *)
Record Peer := {
  peerHost : Host;
  peerImplementation : Implementation;
  peerOptions : AsyncCallOptions CallWire ReturnWire
}.

Variable near far : Peer.

Record World := {
  nearState : State CallWire ReturnWire;
  farState : State CallWire ReturnWire;
  deliveredFromNear : list nat;
  deliveredFromFar : list nat
}.

Definition world_init : World :=
  {| nearState := init; farState := init;
     deliveredFromNear := []; deliveredFromFar := [] |}.

Inductive WorldEvent :=
| At (side : Side) (e : Event CallWire ReturnWire)
| Transmit (from : Side) (n : nat).

(** [n] is among the packets already handed over. *)
Definition delivered (n : nat) (ns : list nat) : bool :=
  existsb (Nat.eqb n) ns.

Definition peer_step (p : Peer) :=
  step (peerHost p) (peerImplementation p) (peerOptions p).

Definition world_step (w : World) (e : WorldEvent) : World :=
  match e with
  | At Near e =>
      {| nearState := peer_step near (nearState w) e;
         farState := farState w;
         deliveredFromNear := deliveredFromNear w;
         deliveredFromFar := deliveredFromFar w |}
  | At Far e =>
      {| nearState := nearState w;
         farState := peer_step far (farState w) e;
         deliveredFromNear := deliveredFromNear w;
         deliveredFromFar := deliveredFromFar w |}
  | Transmit Near n =>
      if delivered n (deliveredFromNear w) then w
      else match sent (nearState w) !! n with
           | None => w
           | Some pkt =>
               {| nearState := nearState w;
                  farState := peer_step far (farState w) (Deliver pkt);
                  deliveredFromNear := n :: deliveredFromNear w;
                  deliveredFromFar := deliveredFromFar w |}
           end
  | Transmit Far n =>
      if delivered n (deliveredFromFar w) then w
      else match sent (farState w) !! n with
           | None => w
           | Some pkt =>
               {| nearState := peer_step near (nearState w) (Deliver pkt);
                  farState := farState w;
                  deliveredFromNear := deliveredFromNear w;
                  deliveredFromFar := n :: deliveredFromFar w |}
           end
  end.

Definition world_steps (w : World) (es : list WorldEvent) : World :=
  foldl world_step w es.


End World.

Arguments Peer : clear implicits.
Arguments World : clear implicits.
Arguments WorldEvent : clear implicits.

(** ** Sample hosts, serializers, transports and peers *)

Definition sampleHost : Host :=
  {| has_getOwnMetadataKeys := true; has_defineMetadata := true;
     ToString := fun _ => "[object Object]";
     stackTrace := fun message => "Error: " +:+ message |}.

(** With [NoSerialization] the payload is the message object itself: an
    object literal, for which Reflect holds no metadata.  A payload of
    type [unit] stands for a primitive. *)
#[global] Instance Request_reflected : Reflected Request.t :=
  fun _ => Some ∅.
#[global] Instance Response_reflected : Reflected Response.t :=
  fun _ => Some ∅.
#[global] Instance unit_reflected : Reflected unit := fun _ => None.

Definition identitySerializer : Serializer Request.t Response.t :=
  {| onCall := NoSerialization Request.t;
     onReturn := NoSerialization Response.t |}.

(** A serializer both of whose operations reject. *)
Definition rejectingSerializer (reason : Value) : Serializer unit unit :=
  {| onCall := {| serialization := fun _ => Rejects reason;
                  deserialization := fun _ => Rejects reason |};
     onReturn := {| serialization := fun _ => Rejects reason;
                    deserialization := fun _ => Rejects reason |} |}.

Definition isFunction (it : Value) : bool :=
  match it with Fun _ => true | _ => false end.

(** A serializer that rejects a request one of whose arguments is a
    function, and is the identity otherwise. *)
Definition cloningSerializer : Serializer Request.t Response.t :=
  {| onCall :=
       {| serialization := fun req =>
            if existsb isFunction (Request.args req)
            then Rejects (Str "could not be cloned")
            else Resolves req;
          deserialization := fun serialized => Resolves serialized |};
     onReturn := NoSerialization Response.t |}.

(** A transport that delivers nothing while [send] runs. *)
Definition deliversLater {C R : Type} : Packet C R → list (Packet C R) :=
  fun _ => [].

(** A transport that answers a call while [send] runs, with a response for
    the same call identifier. *)
Definition answersAtOnce (result : Value)
  : Packet Request.t Response.t → list (Packet Request.t Response.t) :=
  fun pkt =>
    match pkt with
    | OnCall req =>
        [OnReturn {| Response.return_ := result;
                     Response.callId := Request.callId req;
                     Response.method := Request.method req;
                     Response.error := None;
                     Response.metadata := None |}]
    | OnReturn _ => []
    end.

(** [async x => x] and an async function that rejects. *)
Definition echo : Executor :=
  fun _ args => Resolves (default Undefined (args !! 0)).

Definition failWith (err : Value) : Executor := fun _ _ => Rejects err.

Definition plainOptions : AsyncCallOptions Request.t Response.t :=
  defaultOptions identitySerializer deliversLater.


Definition eagerOptions : AsyncCallOptions Request.t Response.t :=
  defaultOptions identitySerializer (answersAtOnce (Str "pong")).

Definition cloningOptions : AsyncCallOptions Request.t Response.t :=
  defaultOptions cloningSerializer deliversLater.

Definition brokenOptions : AsyncCallOptions unit unit :=
  defaultOptions (rejectingSerializer (Str "Unexpected token")) deliversLater.



(** The sample peers other than [literalPeer] are built on implementation
    objects without a prototype. *)
Definition caller : Peer Request.t Response.t :=
  {| peerHost := sampleHost; peerImplementation := ∅;
     peerOptions := plainOptions |}.



Definition echoPeer : Peer Request.t Response.t :=
  {| peerHost := sampleHost; peerImplementation := {[ "echo" := echo ]};
     peerOptions := plainOptions |}.



(** A response for the call ["a"] of [ping], and one for the call ["b"]. *)
Definition pong (id : string) (result : Value) : Response.t :=
  {| Response.return_ := result; Response.callId := id;
     Response.method := "ping"; Response.error := None;
     Response.metadata := None |}.

(** An object with a [then] method. *)
Definition promiseLike : Value := Obj ∅ {[ "then" := Fun ∅ ]}.



(** Sample runs of one instance. *)

Definition pingCalled : State Request.t Response.t :=
  step sampleHost ∅ plainOptions init (Invoke (StringKey "ping") [] "a").

Definition pingSent : State Request.t Response.t :=
  step sampleHost ∅ plainOptions pingCalled (Resume 0).

(** Two responses for the call ["a"] are waiting. *)
Definition answeredTwice : State Request.t Response.t :=
  steps sampleHost ∅ plainOptions pingSent
    [Deliver (OnReturn (pong "a" (Str "first")));
     Deliver (OnReturn (pong "a" (Str "second")))].



(** The call ["a"] is answered with a thenable, and then once more. *)
Definition answeredWithThenable : State Request.t Response.t :=
  steps sampleHost ∅ plainOptions pingSent
    [Deliver (OnReturn (pong "a" promiseLike));
     Deliver (OnReturn (pong "a" (Str "second")));
     Resume 0].


(** The calls ["a"] and ["b"] are registered. *)
Definition twoCallsRegistered : State Request.t Response.t :=
  steps sampleHost ∅ plainOptions init
    [Invoke (StringKey "ping") [] "a"; Invoke (StringKey "ping") [] "b";
     Resume 0; Resume 0].

Definition twoCallsAnswered : State Request.t Response.t :=
  steps sampleHost ∅ plainOptions twoCallsRegistered
    [Deliver (OnReturn (pong "a" (Str "x")));
     Deliver (OnReturn (pong "b" (Str "y")))].

(** The call ["a"] is answered with a thenable and the call ["b"] with a
    string. *)
Definition twoCallsOneThenable : State Request.t Response.t :=
  steps sampleHost ∅ plainOptions twoCallsRegistered
    [Deliver (OnReturn (pong "a" promiseLike));
     Deliver (OnReturn (pong "b" (Str "y")))].

(** Two calls that drew the same identifier: the first is registered and
    the request of the second is serialized; then the second is
    registered too. *)
Definition sameIdentifierDrawn : State Request.t Response.t :=
  steps sampleHost ∅ plainOptions init
    [Invoke (StringKey "f") [] "a"; Invoke (StringKey "g") [] "a";
     Resume 0].

Definition sameIdentifierTwice : State Request.t Response.t :=
  step sampleHost ∅ plainOptions sameIdentifierDrawn (Resume 0).

(** A response for a call that is not registered is waiting. *)
Definition staleDelivered : State Request.t Response.t :=
  step sampleHost ∅ plainOptions init
    (Deliver (OnReturn (pong "stale" (Str "late")))).

(** A call with a function argument, which [cloningSerializer] rejects. *)
Definition cloneRejected : State Request.t Response.t :=
  steps sampleHost ∅ cloningOptions init
    [Invoke (StringKey "register") [Fun ∅] "a"; Resume 0].

Definition cloneAccepted : State Request.t Response.t :=
  step sampleHost ∅ cloningOptions init (Invoke (StringKey "ping") [] "b").

(** A payload that cannot be deserialized, on either channel. *)
Definition brokenCall : State unit unit :=
  steps sampleHost ∅ brokenOptions init [Deliver (OnCall tt); Resume 0].

Definition brokenReturn : State unit unit :=
  steps sampleHost ∅ brokenOptions init [Deliver (OnReturn tt); Resume 0].

(** A call over the transport that answers while [send] runs: the call,
    the state in the middle of the [.then] callback, after [send] and
    before [map.set], the state after the callback, and the state after
    the continuation of the response. *)
Definition eagerCalled : State Request.t Response.t :=
  step sampleHost ∅ eagerOptions init (Invoke (StringKey "ping") [] "a").

Definition eagerPublishing : State Request.t Response.t :=
  send sampleHost eagerOptions
    (OnCall (buildRequest sampleHost "ping" [] "a"))
    (with_tasks (base.delete 0) eagerCalled).

Definition eagerPublished : State Request.t Response.t :=
  step sampleHost ∅ eagerOptions eagerCalled (Resume 0).

Definition eagerAnswered : State Request.t Response.t :=
  step sampleHost ∅ eagerOptions eagerPublished (Resume 0).

(** Sample runs of two instances. *)

Definition echoRequest (x : Value) (id : string) : Request.t :=
  buildRequest sampleHost "echo" [x] id.

Definition echoResponse (x : Value) (id : string) : Response.t :=
  {| Response.method := "echo"; Response.return_ := x;
     Response.callId := id; Response.error := None;
     Response.metadata := None |}.

Definition echoWorld : World Request.t Response.t :=
  world_steps caller echoPeer world_init
    [At Near (Invoke (StringKey "echo") [Str "x"] "a");
     At Near (Invoke (StringKey "echo") [Str "y"] "b");
     At Near (Resume 0); At Near (Resume 0);
     Transmit Near 0; Transmit Near 1;
     At Far (Resume 0); At Far (Resume 0);
     At Far (Resume 0); At Far (Resume 0);
     At Far (Resume 0); At Far (Resume 0);
     Transmit Far 1; Transmit Far 0;
     At Near (Resume 0); At Near (Resume 0)].












(** ** Notions used by the statements *)

Section Notions.

Context {CallWire ReturnWire : Type}.
Context `{!Reflected CallWire, !Reflected ReturnWire}.

(** The promise whose [reject] a suspended [.then] of line 265 holds. *)
Definition resolver (t : Task CallWire ReturnWire) : option nat :=
  match t with
  | AfterSerializeRequest p _ _ => Some p
  | _ => None
  end.

Definition resolvers (ts : list (Task CallWire ReturnWire)) : list nat :=
  omap resolver ts.

(** The promises whose resolving functions the instance still holds: in
    the registry, or in a [.then] that has not run yet. *)
Definition handles (s : State CallWire ReturnWire) : list nat :=
  Map.values (map s) ++ resolvers (tasks s).

(** No key is registered twice, no promise is held twice, and every
    promise still held is pending. *)
Record invariant (s : State CallWire ReturnWire) : Prop := {
  inv_keys : NoDup (Map.keys (map s));
  inv_handles : NoDup (handles s);
  inv_pending : ∀ p, p ∈ handles s → promises s !! p = Some Pending
}.

(** [after] holds the registry, the promises and the handles of
    [before]. *)
Definition keeps (before after : State CallWire ReturnWire) : Prop :=
  map after = map before
  ∧ promises after = promises before
  ∧ resolvers (tasks after) = resolvers (tasks before).

(** What lines 202-212 leave the pending call in: rejected with the
    reconstructed error when [data.error] is truthy, resolved with the
    return value otherwise. *)
Definition carried (host : Host) (data : Response.t)
    (metadataOnResponse : option (gmap string Value)) : PromiseState :=
  match dataError data with
  | Some e =>
      Rejected (apply host data metadataOnResponse
                  (setStack (getProp e "stack")
                     (newError host (getProp e "message"))))
  | None =>
      resolveWith
        (apply host data metadataOnResponse (Response.return_ data))
  end.


(** Promise [p] is not settled before and settled after. *)
Definition settles (before after : State CallWire ReturnWire) (p : nat)
  : bool :=
  negb (settled (promise before p)) && settled (promise after p).

(** [resolve] or [reject] of promise [p] is called for the first time. *)
Definition resolves (before after : State CallWire ReturnWire) (p : nat)
  : bool :=
  negb (locked (promise before p)) && locked (promise after p).

Variable host : Host.
Variable implementation : Implementation.
Variable options : AsyncCallOptions CallWire ReturnWire.

(** The number of events of a run that settle promise [p]. *)
Fixpoint settlements (s : State CallWire ReturnWire)
    (es : list (Event CallWire ReturnWire)) (p : nat) : nat :=
  match es with
  | [] => 0
  | e :: es =>
      let s' := step host implementation options s e in
      (if settles s s' p then 1 else 0) + settlements s' es p
  end.

(** The number of events of a run that call [resolve] or [reject] of
    promise [p] for the first time. *)
Fixpoint resolutions (s : State CallWire ReturnWire)
    (es : list (Event CallWire ReturnWire)) (p : nat) : nat :=
  match es with
  | [] => 0
  | e :: es =>
      let s' := step host implementation options s e in
      (if resolves s s' p then 1 else 0) + resolutions s' es p
  end.

(** Event [e], in state [s], registers the call identifier [id] or
    dispatches a response that bears it. *)
Definition concerns (id : string) (s : State CallWire ReturnWire)
    (e : Event CallWire ReturnWire) : bool :=
  match e with
  | Resume n =>
      match tasks s !! n with
      | Some (AfterSerializeRequest _ id' (Resolves _)) => String.eqb id' id
      | Some (AfterDeserializeResponse _ (Resolves data)) =>
          String.eqb (Response.callId data) id
      | _ => false
      end
  | _ => false
  end.

(** No event of the run concerns [id]. *)
Fixpoint undisturbed (id : string) (s : State CallWire ReturnWire)
    (es : list (Event CallWire ReturnWire)) : bool :=
  match es with
  | [] => true
  | e :: es =>
      negb (concerns id s e)
      && undisturbed id (step host implementation options s e) es
  end.

(** The serializer gives the request back as it was. *)
Definition faithfulOnCall (req : Request.t) (payload : CallWire) : Prop :=
  serialization (onCall (serializer options)) req = Resolves payload
  ∧ deserialization (onCall (serializer options)) payload = Resolves req.

Definition faithfulOnReturn (res : Response.t) (payload : ReturnWire)
  : Prop :=
  serialization (onReturn (serializer options)) res = Resolves payload
  ∧ deserialization (onReturn (serializer options)) payload = Resolves res.

(** A dispatch that leaves no trace: nothing sent, nothing logged, no
    registry entry touched, no promise settled, no listener fault. *)
Definition silent (before after : State CallWire ReturnWire) : Prop :=
  sent after = sent before
  ∧ map after = map before
  ∧ promises after = promises before
  ∧ console after = console before
  ∧ listenerFaults after = listenerFaults before.

End Notions.



(** ** Notions used by the further properties *)

(** The value as a serializer that loses Reflect's metadata gives it
    back. *)
Definition withoutMetadata (it : Value) : Value := setOwnMetadata ∅ it.

Section MoreNotions.

Context {CallWire ReturnWire : Type}.

(** The state without what was written to the console. *)
Definition mute (s : State CallWire ReturnWire) : State CallWire ReturnWire :=
  {| map := map s; promises := promises s; sent := sent s; console := [];
     tasks := tasks s; listenerFaults := listenerFaults s |}.

(** The same options with another choice of [writeToConsole]. *)
Definition logging (b : bool) (o : AsyncCallOptions CallWire ReturnWire)
  : AsyncCallOptions CallWire ReturnWire :=
  {| key := key o; serializer := serializer o;
     MessageCenter := MessageCenter o;
     dontThrowOnNotImplemented := dontThrowOnNotImplemented o;
     writeToConsole := b |}.

(** The continuations of the Request Dispatcher (lines 135-185). *)
Definition ofRequestDispatcher (t : Task CallWire ReturnWire) : bool :=
  match t with
  | AfterDeserializeCall _ _ | AfterExecutor _ _
  | AfterSerializeResult _ _ | AfterSerializeError _ => true
  | _ => false
  end.

(** What the event hands to [message.send]: the payload a serialization
    resolved with, when its continuation is resumed. *)
Definition published (s : State CallWire ReturnWire)
    (e : Event CallWire ReturnWire) : list (Packet CallWire ReturnWire) :=
  match e with
  | Resume n =>
      match tasks s !! n with
      | Some (AfterSerializeRequest _ _ (Resolves data)) => [OnCall data]
      | Some (AfterSerializeResult _ (Resolves payload)) => [OnReturn payload]
      | Some (AfterSerializeError (Resolves response)) => [OnReturn response]
      | _ => []
      end
  | _ => []
  end.

(** A call by the user or a payload handed over by the transport, as
    opposed to the resumption of a continuation. *)
Definition stimulus (e : Event CallWire ReturnWire) : bool :=
  match e with
  | Resume _ => false
  | _ => true
  end.

Definition stimuli (es : list (Event CallWire ReturnWire)) : nat :=
  sum_list ((fun e => if stimulus e then 1 else 0) <$> es).

End MoreNotions.

Section MoreRuns.

Context {CallWire ReturnWire : Type}.
Context `{!Reflected CallWire, !Reflected ReturnWire}.
Variable host : Host.
Variable implementation : Implementation.
Variable options : AsyncCallOptions CallWire ReturnWire.

(** The continuation enters the [catch] block with [null] or
    [undefined]: the executor threw it, or the promise it returned or the
    serialization of its result was rejected with it. *)
Definition catchesNullish (t : Task CallWire ReturnWire) : bool :=
  match t with
  | AfterDeserializeCall md (Resolves data) =>
      match member implementation (Request.method data) with
      | Some executor =>
          match callExecutor host executor md
                  (readMetadataOnArgs host (Request.args data)
                     (Request.metadata data)) with
          | Throws err => nullish err
          | Returns _ => false
          end
      | None => false
      end
  | AfterExecutor _ (Rejects err) => nullish err
  | AfterSerializeResult _ (Rejects err) => nullish err
  | _ => false
  end.

(** Event [e], in state [s], resumes a continuation that enters [catch]
    with [null] or [undefined]. *)
Definition resumesNullish (s : State CallWire ReturnWire)
    (e : Event CallWire ReturnWire) : bool :=
  match e with
  | Resume n =>
      match tasks s !! n with
      | Some t => catchesNullish t
      | None => false
      end
  | _ => false
  end.

(** The continuation holds what the serializer gave for some message. *)
Definition fromSerializer (t : Task CallWire ReturnWire) : Prop :=
  match t with
  | AfterSerializeRequest _ id r =>
      ∃ method args,
        r = serialization (onCall (serializer options))
              (buildRequest host method args id)
  | AfterSerializeResult _ r | AfterSerializeError r =>
      ∃ response, r = serialization (onReturn (serializer options)) response
  | _ => True
  end.

(** The packet holds what the serializer resolved with, for a request
    that the proxy built or for some response. *)
Definition serialized (pkt : Packet CallWire ReturnWire) : Prop :=
  match pkt with
  | OnCall payload =>
      ∃ method args id,
        serialization (onCall (serializer options))
          (buildRequest host method args id) = Resolves payload
  | OnReturn payload =>
      ∃ response,
        serialization (onReturn (serializer options)) response
        = Resolves payload
  end.

(** Every suspended serialization holds what the serializer gave, and
    every published packet what it resolved with. *)
Definition sourced (s : State CallWire ReturnWire) : Prop :=
  Forall fromSerializer (tasks s) ∧ Forall serialized (sent s).

(** No event of the run enters [catch] with [null] or [undefined]. *)
Fixpoint calm (s : State CallWire ReturnWire)
    (es : list (Event CallWire ReturnWire)) : bool :=
  match es with
  | [] => true
  | e :: es =>
      negb (resumesNullish s e)
      && calm (step host implementation options s e) es
  end.

End MoreRuns.

(** Further sample values, tables and runs. *)

(** An object that carries one metadata entry. *)
Definition tagged : Value := Obj {[ "role" := Str "admin" ]} ∅.

(** [{ add: async (a, b) => a + b }], on numbers. *)
Definition add : Executor :=
  fun _ args =>
    match args with
    | [Num a; Num b] => Resolves (Num (a + b))
    | _ => Rejects (Str "expected two numbers")
    end.

Definition addPeer : Peer Request.t Response.t :=
  {| peerHost := sampleHost; peerImplementation := {[ "add" := add ]};
     peerOptions := plainOptions |}.

Definition addRequest : Request.t :=
  buildRequest sampleHost "add" [Num 2; Num 3] "a".

Definition addResponse : Response.t :=
  {| Response.method := "add"; Response.return_ := Num 5;
     Response.callId := "a"; Response.error := None;
     Response.metadata := None |}.

Definition addWorld : World Request.t Response.t :=
  world_steps caller addPeer world_init
    [At Near (Invoke (StringKey "add") [Num 2; Num 3] "a");
     At Near (Resume 0); Transmit Near 0;
     At Far (Resume 0); At Far (Resume 0); At Far (Resume 0);
     Transmit Far 0; At Near (Resume 0)].

(** A serializer that rejects, with an [Error], a response whose return
    value is a function, and is the identity otherwise. *)
Definition cloningReturnSerializer : Serializer Request.t Response.t :=
  {| onCall := NoSerialization Request.t;
     onReturn :=
       {| serialization := fun res =>
            if isFunction (Response.return_ res)
            then Rejects (Err ∅ "could not be cloned" (Str "DataCloneError"))
            else Resolves res;
          deserialization := fun serialized => Resolves serialized |} |}.

Definition cloningReturnOptions : AsyncCallOptions Request.t Response.t :=
  defaultOptions cloningReturnSerializer deliversLater.

Definition cloningCaller : Peer Request.t Response.t :=
  {| peerHost := sampleHost; peerImplementation := ∅;
     peerOptions := cloningReturnOptions |}.

(** [{ handler: async () => () => {} }] *)
Definition handlerPeer : Peer Request.t Response.t :=
  {| peerHost := sampleHost;
     peerImplementation := {[ "handler" := fun _ _ => Resolves (Fun ∅) ]};
     peerOptions := cloningReturnOptions |}.

Definition handlerRefused : Response.t :=
  {| Response.method := "handler";
     Response.error :=
       Some (errorInfo (Str "could not be cloned") (Str "DataCloneError"));
     Response.return_ := Undefined;
     Response.callId := "a";
     Response.metadata := None |}.

Definition handlerWorld : World Request.t Response.t :=
  world_steps cloningCaller handlerPeer world_init
    [At Near (Invoke (StringKey "handler") [] "a");
     At Near (Resume 0); Transmit Near 0;
     At Far (Resume 0); At Far (Resume 0); At Far (Resume 0);
     At Far (Resume 0);
     Transmit Far 0; At Near (Resume 0)].

(** An instance with two registered calls that has received the request
    ["z"] for [echo]. *)
Definition callReceived : State Request.t Response.t :=
  step sampleHost {[ "echo" := echo ]} plainOptions twoCallsRegistered
    (Deliver (OnCall (echoRequest (Str "x") "z"))).

(** The implementation of [fail] has rejected with [err]. *)
Definition failRequest : Request.t := buildRequest sampleHost "fail" [] "z".

Definition executorFailed (err : Value) : State Request.t Response.t :=
  steps sampleHost {[ "fail" := failWith err ]} plainOptions init
    [Deliver (OnCall failRequest); Resume 0].

(** [{ parse: () => { throw new Error("bad input") } }], a function that
    throws before it returns, and the request ["z"] for it. *)
Definition badInput : Value := Err ∅ "bad input" (Str "Error: bad input").

Definition parser : Implementation :=
  {| own := {[ "parse" := fun _ _ => Throws badInput ]}; inherited := ∅ |}.

Definition parseRequest : Request.t :=
  buildRequest sampleHost "parse" [Str "{"] "z".

Definition parseReceived : State Request.t Response.t :=
  step sampleHost parser plainOptions init (Deliver (OnCall parseRequest)).

(** A run in which a call is sent and answered, and a request is received
    and answered. *)
Definition busyRun : list (Event Request.t Response.t) :=
  [Invoke (StringKey "ping") [] "a"; Resume 0;
   Deliver (OnCall (echoRequest (Str "x") "z")); Resume 0; Resume 0;
   Resume 0;
   Deliver (OnReturn (pong "a" (Str "pong"))); Resume 0].

(** What happens around the call ["a"] of [twoCallsRegistered] without
    concerning it. *)
Definition otherTraffic : list (Event Request.t Response.t) :=
  [Deliver (OnReturn (pong "b" (Str "y"))); Resume 0;
   Invoke (StringKey "g") [] "c"; Resume 0;
   Deliver (OnReturn (pong "stale" (Str "late"))); Resume 0].

(** * Properties *)

(** ** The registry as a [Map] *)

Lemma Map_get_set_eq k v m : Map.get k (Map.set k v m) = Some v.
Proof.
  induction m as [|[k' v'] m IH]; simpl.
  - by rewrite String.eqb_refl.
  - destruct (String.eqb k k') eqn:E; simpl; rewrite ?String.eqb_refl, ?E; done.
Qed.

Lemma Map_get_set_ne k k' v m :
  k ≠ k' → Map.get k' (Map.set k v m) = Map.get k' m.
Proof.
  intros Hne. induction m as [|[k0 v0] m IH]; simpl.
  - destruct (String.eqb k' k) eqn:E; [|done].
    apply String.eqb_eq in E. congruence.
  - destruct (String.eqb k k0) eqn:E; simpl.
    + apply String.eqb_eq in E. subst k0.
      destruct (String.eqb k' k) eqn:E'; [|done].
      apply String.eqb_eq in E'. congruence.
    + by rewrite IH.
Qed.

Lemma Map_get_delete_ne k k' m :
  k ≠ k' → Map.get k' (Map.delete k m) = Map.get k' m.
Proof.
  intros Hne. induction m as [|[k0 v0] m IH]; simpl; [done|].
  destruct (String.eqb k k0) eqn:E; simpl.
  - apply String.eqb_eq in E. subst k0.
    destruct (String.eqb k' k) eqn:E'; [|done].
    apply String.eqb_eq in E'. congruence.
  - by rewrite IH.
Qed.

Lemma Map_get_None k m : Map.get k m = None ↔ k ∉ Map.keys m.
Proof.
  unfold Map.keys. induction m as [|[k0 v0] m IH]; simpl.
  - split; [intros _; apply not_elem_of_nil | done].
  - rewrite not_elem_of_cons. destruct (String.eqb k k0) eqn:E.
    + apply String.eqb_eq in E. split; [done | intros [? _]; done].
    + apply String.eqb_neq in E. rewrite IH. tauto.
Qed.

Lemma Map_get_Some k v m : Map.get k m = Some v → (k, v) ∈ m.
Proof.
  induction m as [|[k0 v0] m IH]; simpl; [done|].
  destruct (String.eqb k k0) eqn:E.
  - apply String.eqb_eq in E. intros [= ->]. subst. apply list_elem_of_here.
  - intros H. apply list_elem_of_further. auto.
Qed.

Lemma Map_delete_absent k m : k ∉ Map.keys m → Map.delete k m = m.
Proof.
  unfold Map.keys. induction m as [|[k0 v0] m IH]; simpl; [done|].
  rewrite not_elem_of_cons. intros [Hne Hnin].
  destruct (String.eqb k k0) eqn:E.
  - apply String.eqb_eq in E. done.
  - by rewrite IH.
Qed.

(** Deleting a key that is present takes exactly its entry out. *)
Lemma Map_delete_Permutation k v m :
  Map.get k m = Some v → m ≡ₚ (k, v) :: Map.delete k m.
Proof.
  induction m as [|[k0 v0] m IH]; simpl; [done|].
  destruct (String.eqb k k0) eqn:E.
  - apply String.eqb_eq in E. intros [= ->]. by subst.
  - intros H. rewrite (IH H) at 1. apply Permutation_swap.
Qed.

(** [set] puts the new entry in the place of the old one, or at the end. *)
Lemma Map_set_Permutation k v m :
  Map.set k v m ≡ₚ (k, v) :: Map.delete k m.
Proof.
  induction m as [|[k0 v0] m IH]; simpl; [done|].
  destruct (String.eqb k k0) eqn:E; [done|].
  rewrite IH. apply Permutation_swap.
Qed.

Lemma Map_keys_delete k m :
  NoDup (Map.keys m) →
  NoDup (Map.keys (Map.delete k m)) ∧ k ∉ Map.keys (Map.delete k m).
Proof.
  unfold Map.keys. induction m as [|[k0 v0] m IH]; simpl.
  - intros _. split; [constructor | apply not_elem_of_nil].
  - rewrite NoDup_cons. intros [Hk0 Hnd].
    destruct (String.eqb k k0) eqn:E.
    + apply String.eqb_eq in E. by subst.
    + apply String.eqb_neq in E. destruct (IH Hnd) as [IH1 IH2].
      simpl. split.
      * apply NoDup_cons. split; [|done].
        intros Hin. apply Hk0.
        destruct (decide (k ∈ m.*1)) as [Hk|Hk].
        -- apply list_elem_of_fmap in Hin as [[a b] [-> Hin]].
           destruct (Map.get k m) as [v|] eqn:G.
           ++ apply list_elem_of_fmap. exists (a, b). split; [done|].
              rewrite (Map_delete_Permutation _ _ _ G).
              by apply list_elem_of_further.
           ++ apply Map_get_None in G. done.
        -- by rewrite (Map_delete_absent _ _ Hk) in Hin.
      * rewrite not_elem_of_cons. done.
Qed.

Lemma Map_keys_set k v m :
  NoDup (Map.keys m) → NoDup (Map.keys (Map.set k v m)).
Proof.
  intros Hnd. destruct (Map_keys_delete k m Hnd) as [H1 H2].
  unfold Map.keys in *. rewrite (Map_set_Permutation k v m). simpl.
  by apply NoDup_cons.
Qed.

Lemma Map_get_delete_eq k m :
  NoDup (Map.keys m) → Map.get k (Map.delete k m) = None.
Proof.
  intros Hnd. apply Map_get_None. by apply Map_keys_delete.
Qed.

(** In a [Map] without repeated keys an entry is found under its key. *)
Lemma Map_get_elem_of k v m :
  NoDup (Map.keys m) → (k, v) ∈ m → Map.get k m = Some v.
Proof.
  unfold Map.keys. induction m as [|[k0 v0] m IH]; simpl.
  - intros _ H. by apply elem_of_nil in H.
  - rewrite NoDup_cons. intros [Hk0 Hnd] Hin.
    apply elem_of_cons in Hin as [[= -> ->]|Hin].
    + by rewrite String.eqb_refl.
    + destruct (String.eqb k k0) eqn:E; [|auto].
      apply String.eqb_eq in E. subst k0. exfalso. apply Hk0.
      apply list_elem_of_fmap. by exists (k, v).
Qed.

(** ** What every step preserves *)

Section Invariant.

Context {CallWire ReturnWire : Type}.
Context `{!Reflected CallWire, !Reflected ReturnWire}.
Variable host : Host.
Variable implementation : Implementation.
Variable options : AsyncCallOptions CallWire ReturnWire.

Implicit Types s : State CallWire ReturnWire.
Implicit Types t : Task CallWire ReturnWire.

Lemma Map_values_delete k m : Map.values (Map.delete k m) ⊆+ Map.values m.
Proof.
  unfold Map.values. induction m as [|[k0 v0] m IH]; simpl; [done|].
  destruct (String.eqb k k0); simpl.
  - by apply submseteq_cons.
  - by apply submseteq_skip.
Qed.

Lemma Map_values_set k v m :
  Map.values (Map.set k v m) ≡ₚ v :: Map.values (Map.delete k m).
Proof. unfold Map.values. by rewrite Map_set_Permutation. Qed.

Lemma resolvers_app (ts1 ts2 : list (Task CallWire ReturnWire)) :
  resolvers (ts1 ++ ts2) = resolvers ts1 ++ resolvers ts2.
Proof. apply omap_app. Qed.

Lemma resolvers_delete (ts : list (Task CallWire ReturnWire)) n t :
  ts !! n = Some t →
  resolvers ts ≡ₚ option_list (resolver t) ++ resolvers (delete n ts).
Proof.
  intros H. unfold resolvers. rewrite (delete_Permutation _ _ _ H) at 1.
  simpl. by destruct (resolver t).
Qed.

Lemma NoDup_fewer (l k : list nat) : l ⊆+ k → NoDup k → NoDup l.
Proof.
  intros Hsub Hnd. apply submseteq_Permutation in Hsub as [k' Hk'].
  rewrite Hk' in Hnd. by apply NoDup_app in Hnd as [? _].
Qed.

(** A state that holds some of the handles of [s], over the same
    promises. *)
Lemma invariant_fewer s s' :
  invariant s →
  NoDup (Map.keys (map s')) →
  handles s' ⊆+ handles s →
  promises s' = promises s →
  invariant s'.
Proof.
  intros [Hk Hh Hp] Hk' Hsub Hps. split; [done| |].
  - eapply NoDup_fewer; eauto.
  - intros p Hin. rewrite Hps. apply Hp. eapply elem_of_submseteq; eauto.
Qed.

(** A state in which one of the handles of [s] was used to settle its
    promise, and is no longer held. *)
Lemma invariant_settled s s' p out :
  invariant s →
  NoDup (Map.keys (map s')) →
  p :: handles s' ⊆+ handles s →
  promises s' = <[p := out]> (promises s) →
  invariant s'.
Proof.
  intros [Hk Hh Hp] Hk' Hsub Hps.
  assert (NoDup (p :: handles s')) as Hnd by (eapply NoDup_fewer; eauto).
  apply NoDup_cons in Hnd as [Hnotin Hnd]. split; [done..|].
  intros q Hin. rewrite Hps, list_lookup_insert_ne by (intros ->; done).
  apply Hp. eapply elem_of_submseteq; [|exact Hsub]. by apply list_elem_of_further.
Qed.

Lemma settle_held s p out :
  promises s !! p = Some Pending →
  promises (settle p out s) = <[p := out]> (promises s).
Proof. intros H. unfold settle. simpl. by rewrite H. Qed.

Lemma invariant_init : invariant (@init CallWire ReturnWire).
Proof.
  split; simpl; [constructor | constructor |].
  intros p H. by apply elem_of_nil in H.
Qed.

(** The listeners and [send] only add continuations that hold no
    handle. *)
Lemma listen_frame pkt s :
  map (listen host options pkt s) = map s
  ∧ promises (listen host options pkt s) = promises s
  ∧ resolvers (tasks (listen host options pkt s)) = resolvers (tasks s)
  ∧ sent (listen host options pkt s) = sent s
  ∧ console (listen host options pkt s) = console s
  ∧ listenerFaults (listen host options pkt s) = listenerFaults s.
Proof.
  destruct pkt; simpl; rewrite resolvers_app; simpl;
    by rewrite app_nil_r.
Qed.

Lemma listens_frame pkts s :
  let s' := foldl (fun acc d => listen host options d acc) s pkts in
  map s' = map s ∧ promises s' = promises s
  ∧ resolvers (tasks s') = resolvers (tasks s)
  ∧ sent s' = sent s ∧ console s' = console s
  ∧ listenerFaults s' = listenerFaults s.
Proof.
  revert s. induction pkts as [|pkt pkts IH]; intros s; simpl; [done|].
  destruct (IH (listen host options pkt s)) as (->&->&->&->&->&->).
  apply listen_frame.
Qed.

Lemma send_frame pkt s :
  map (send host options pkt s) = map s
  ∧ promises (send host options pkt s) = promises s
  ∧ resolvers (tasks (send host options pkt s)) = resolvers (tasks s)
  ∧ sent (send host options pkt s) = sent s ++ [pkt]
  ∧ console (send host options pkt s) = console s
  ∧ listenerFaults (send host options pkt s) = listenerFaults s.
Proof.
  unfold send.
  destruct (listens_frame (MessageCenter options pkt) (record_sent pkt s))
    as (->&->&->&->&->&->). done.
Qed.

Lemma keeps_trans s1 s2 s3 : keeps s1 s2 → keeps s2 s3 → keeps s1 s3.
Proof. intros (?&?&?) (?&?&?). repeat split; congruence. Qed.

Lemma keeps_write line s : keeps s (write line s).
Proof. done. Qed.

Lemma keeps_fail f s : keeps s (fail f s).
Proof. done. Qed.

Lemma keeps_await t s : resolver t = None → keeps s (await t s).
Proof.
  intros H. repeat split. simpl. rewrite resolvers_app. simpl.
  by rewrite H, app_nil_r.
Qed.

Lemma keeps_send pkt s : keeps s (send host options pkt s).
Proof. destruct (send_frame pkt s) as (?&?&?&_). done. Qed.

Lemma keeps_catch data err s : keeps s (catch options data err s).
Proof.
  unfold catch. destruct (writeToConsole options).
  - destruct (nullish err); [apply keeps_fail|].
    eapply keeps_trans; [apply keeps_write | by apply keeps_await].
  - by apply keeps_await.
Qed.

Lemma keeps_afterDeserializeCall md r s :
  keeps s (afterDeserializeCall host implementation options md r s).
Proof.
  unfold afterDeserializeCall. destruct r as [data|reason]; [|apply keeps_fail].
  destruct (member implementation (Request.method data)) as [executor|].
  - destruct (callExecutor host executor md _) as [promise|err];
      [|apply keeps_catch].
    destruct (writeToConsole options).
    + eapply keeps_trans; [apply keeps_write | by apply keeps_await].
    + by apply keeps_await.
  - destruct (dontThrowOnNotImplemented options);
      [apply keeps_write | apply keeps_catch].
Qed.

Lemma keeps_afterExecutor data r s :
  keeps s (afterExecutor host options data r s).
Proof. destruct r; [by apply keeps_await | apply keeps_catch]. Qed.

Lemma keeps_afterSerializeResult data r s :
  keeps s (afterSerializeResult host options data r s).
Proof. destruct r; [apply keeps_send | apply keeps_catch]. Qed.

Lemma keeps_afterSerializeError r s :
  keeps s (afterSerializeError host options r s).
Proof. destruct r; [apply keeps_send | apply keeps_fail]. Qed.

Lemma invariant_keeps s s' : invariant s → keeps s s' → invariant s'.
Proof.
  intros Hinv (Hm & Hp & Hr). apply (invariant_fewer s s' Hinv).
  - rewrite Hm. apply Hinv.
  - unfold handles. by rewrite Hm, Hr.
  - done.
Qed.

Lemma handles_resumed s n t :
  tasks s !! n = Some t →
  handles s ≡ₚ option_list (resolver t) ++ handles (with_tasks (delete n) s).
Proof.
  intros H. unfold handles. simpl. rewrite (resolvers_delete _ _ _ H).
  destruct (resolver t); simpl; [|done].
  by rewrite Permutation_middle.
Qed.

Lemma invariant_invoke method args id s :
  invariant s → invariant (invoke host options method args id s).
Proof.
  intros Hinv. destruct Hinv as [Hk Hh Hp].
  assert (∀ p, p ∈ handles s → p < length (promises s)) as Hlt.
  { intros p Hin. apply lookup_lt_Some with Pending. auto. }
  destruct method as [m|d]; simpl.
  - split; simpl; [done| |].
    + unfold handles. simpl. rewrite resolvers_app, app_assoc. simpl.
      apply NoDup_app. split; [done|]. split; [|apply NoDup_singleton].
      intros p Hin. rewrite list_elem_of_singleton. intros ->.
      apply Hlt in Hin. lia.
    + intros p. unfold handles. simpl. rewrite resolvers_app, app_assoc.
      simpl. rewrite elem_of_app, list_elem_of_singleton.
      intros [Hin| ->].
      * rewrite lookup_app_l by auto. auto.
      * by rewrite list_lookup_middle.
  - split; simpl; [done..|].
    intros p Hin. rewrite lookup_app_l by auto. auto.
Qed.

Lemma invariant_afterSerializeRequest s n p id r :
  invariant s →
  tasks s !! n = Some (AfterSerializeRequest p id r) →
  invariant (afterSerializeRequest host options p id r
               (with_tasks (delete n) s)).
Proof.
  intros Hinv Ht. pose proof (handles_resumed s n _ Ht) as Hperm.
  simpl in Hperm. set (s0 := with_tasks (delete n) s) in *.
  destruct r as [data|reason]; simpl.
  - destruct (send_frame (OnCall data) s0) as (Hm & Hps & Hr & _).
    apply (invariant_fewer s); [done| | |done].
    + simpl. rewrite Hm. apply Map_keys_set, Hinv.
    + unfold handles at 1. simpl. rewrite Hm, Hr, Map_values_set, Hperm.
      simpl. apply submseteq_skip. unfold handles.
      apply submseteq_skips_r, Map_values_delete.
  - assert (promises s0 !! p = Some Pending) as Hpend.
    { apply (inv_pending s Hinv). rewrite Hperm. apply list_elem_of_here. }
    apply (invariant_settled s _ p (Rejected reason)); [done|apply Hinv| |].
    + by rewrite Hperm.
    + exact (settle_held s0 p _ Hpend).
Qed.

Lemma invariant_afterDeserializeResponse s md r :
  invariant s →
  invariant (afterDeserializeResponse host options md r s).
Proof.
  intros Hinv. destruct r as [data|reason]; simpl;
    [|by apply (invariant_keeps s), keeps_fail].
  destruct (Map.get (Response.callId data) (map s)) as [p|] eqn:Hget;
    [|done].
  set (s1 := with_map (Map.delete (Response.callId data)) s).
  assert (p :: handles s1 ≡ₚ handles s) as Hperm.
  { unfold handles, Map.values. simpl.
    rewrite (Map_delete_Permutation _ _ _ Hget) at 2. done. }
  assert (promises s !! p = Some Pending) as Hpend.
  { apply (inv_pending s Hinv). rewrite <- Hperm. apply list_elem_of_here. }
  assert (∀ out, invariant (settle p out s1)) as Hsettle.
  { intros out. apply (invariant_settled s _ p out); [done| | |].
    - apply Map_keys_delete, Hinv.
    - by rewrite Hperm.
    - by apply (settle_held s1). }
  destruct (dataError data) as [e|]; [|apply Hsettle].
  destruct (writeToConsole options); [|apply Hsettle].
  eapply invariant_keeps; [apply Hsettle | apply keeps_write].
Qed.

Lemma invariant_step s e :
  invariant s → invariant (step host implementation options s e).
Proof.
  intros Hinv. destruct e as [method args id|pkt|n]; simpl.
  - by apply invariant_invoke.
  - apply (invariant_keeps s); [done|].
    destruct (listen_frame pkt s) as (?&?&?&_). done.
  - destruct (tasks s !! n) as [t|] eqn:Ht; [|done].
    destruct t as [p id r|md r|data r|data r|r|md r]; simpl.
    1: by apply invariant_afterSerializeRequest.
    5: { apply invariant_afterDeserializeResponse.
         apply (invariant_fewer s); [done|apply Hinv| |done].
         by rewrite (handles_resumed s n _ Ht). }
    all: pose proof (handles_resumed s n _ Ht) as Hperm; simpl in Hperm.
    all: assert (invariant (with_tasks (delete n) s)) as Hinv0
      by (apply (invariant_fewer s); [done|apply Hinv|by rewrite Hperm|done]).
    all: eapply invariant_keeps; [exact Hinv0|].
    + apply keeps_afterDeserializeCall.
    + apply keeps_afterExecutor.
    + apply keeps_afterSerializeResult.
    + apply keeps_afterSerializeError.
Qed.

(** A promise that the instance no longer holds is out of its reach:
    no event changes it, and no event takes hold of it again. *)
Lemma unheld_step s e p :
  invariant s → p < length (promises s) → p ∉ handles s →
  promises (step host implementation options s e) !! p = promises s !! p
  ∧ p ∉ handles (step host implementation options s e).
Proof.
  intros Hinv Hlt Hp.
  assert (∀ s0 s', promises s0 = promises s → handles s0 ⊆+ handles s →
            keeps s0 s' →
            promises s' !! p = promises s !! p ∧ p ∉ handles s') as Hkeeps.
  { intros s0 s' H0 Hsub (Hm & Hps & Hr). split; [by rewrite Hps, H0|].
    intros Hin. apply Hp. eapply elem_of_submseteq; [|exact Hsub].
    unfold handles in *. by rewrite <- Hm, <- Hr. }
  assert (∀ (s0 : State CallWire ReturnWire) q out,
            q ≠ p → promises (settle q out s0) !! p = promises s0 !! p)
    as Hsettle.
  { intros s0 q out Hne. unfold settle. simpl.
    destruct (promises s0 !! q) as [[| | |]|]; try done.
    by rewrite list_lookup_insert_ne. }
  destruct e as [method args id|pkt|n]; simpl.
  - destruct method as [m|d]; simpl.
    + split; [by rewrite lookup_app_l|].
      unfold handles. simpl. rewrite resolvers_app, app_assoc. simpl.
      rewrite not_elem_of_app, list_elem_of_singleton. split; [done|lia].
    + split; [by rewrite lookup_app_l | done].
  - apply (Hkeeps s); [done..|].
    destruct (listen_frame pkt s) as (?&?&?&_). done.
  - destruct (tasks s !! n) as [t|] eqn:Ht; [|done].
    pose proof (handles_resumed s n _ Ht) as Hperm.
    set (s0 := with_tasks (delete n) s) in *.
    assert (handles s0 ⊆+ handles s) as Hsub0.
    { rewrite Hperm. apply submseteq_inserts_l. done. }
    assert (p ∉ handles s0) as Hp0.
    { intros Hin. apply Hp. by eapply elem_of_submseteq. }
    destruct t as [q id r|md r|data r|data r|r|md r]; simpl.
    + assert (q ≠ p) as Hq.
      { intros ->. apply Hp. rewrite Hperm. apply list_elem_of_here. }
      destruct r as [w|reason]; simpl.
      * destruct (send_frame (OnCall w) s0) as (Hm & Hps & Hr & _).
        split; [by rewrite Hps|].
        unfold handles. simpl. rewrite Hm, Hr, Map_values_set.
        rewrite not_elem_of_app, not_elem_of_cons. unfold handles in Hp0.
        simpl in Hp0. apply not_elem_of_app in Hp0 as [Hv Hr0].
        repeat split; [done| |done].
        intros Hin. apply Hv.
        eapply elem_of_submseteq; [exact Hin|apply Map_values_delete].
      * split; [exact (Hsettle s0 q _ Hq) | done].
    + apply (Hkeeps s0); [done..|apply keeps_afterDeserializeCall].
    + apply (Hkeeps s0); [done..|apply keeps_afterExecutor].
    + apply (Hkeeps s0); [done..|apply keeps_afterSerializeResult].
    + apply (Hkeeps s0); [done..|apply keeps_afterSerializeError].
    + destruct r as [data|reason]; simpl; [|done].
      destruct (Map.get (Response.callId data) (map s)) as [q|] eqn:Hget;
        [|done].
      assert (q ≠ p) as Hq.
      { intros ->. apply Hp. unfold handles. apply elem_of_app. left.
        unfold Map.values. apply list_elem_of_fmap.
        eexists (_, p). split; [done|]. by apply Map_get_Some. }
      set (s1 := with_map (Map.delete (Response.callId data)) s0).
      assert (p ∉ handles s1) as Hp1.
      { unfold handles in *. simpl in *.
        apply not_elem_of_app in Hp0 as [Hv Hr0]. rewrite not_elem_of_app.
        split; [|done]. intros Hin. apply Hv.
        eapply elem_of_submseteq; [exact Hin|apply Map_values_delete]. }
      destruct (dataError data) as [e|]; [destruct (writeToConsole options)|];
        (split; [exact (Hsettle s1 q _ Hq) | exact Hp1]).
Qed.

Lemma reachable_invariant s :
  reachable host implementation options s → invariant s.
Proof.
  induction 1 as [|s e _ IH]; [apply invariant_init | by apply invariant_step].
Qed.

Lemma reachable_steps s es :
  reachable host implementation options s →
  reachable host implementation options
    (steps host implementation options s es).
Proof.
  revert s. induction es as [|e es IH]; intros s Hs; simpl; [done|].
  apply IH. by constructor.
Qed.

Lemma unheld_steps s es p :
  reachable host implementation options s →
  p < length (promises s) → p ∉ handles s →
  promises (steps host implementation options s es) !! p = promises s !! p
  ∧ p ∉ handles (steps host implementation options s es).
Proof.
  revert s. induction es as [|e es IH]; intros s Hreach Hlt Hp; simpl;
    [done|].
  destruct (unheld_step s e p (reachable_invariant s Hreach) Hlt Hp)
    as [Hsame Hp'].
  destruct (IH (step host implementation options s e)) as [H1 H2];
    [by constructor| |done|].
  - apply lookup_lt_is_Some. rewrite Hsame. by apply lookup_lt_is_Some.
  - split; [by rewrite H1|done].
Qed.

(** A failure that is neither [null] nor [undefined] is answered: the
    [catch] block serializes the error response, and the continuation of
    that serialization publishes it. *)
Lemma catch_answered s data err u :
  nullish err = false →
  serialization (onReturn (serializer options)) (errorResponse data err)
    = Resolves u →
  let s' := step host implementation options (catch options data err s)
              (Resume (length (tasks s))) in
  sent s' = sent s ++ [OnReturn u]
  ∧ listenerFaults s' = listenerFaults s
  ∧ map s' = map s ∧ promises s' = promises s.
Proof.
  intros Hnull Hser.
  assert (∀ s1 : State CallWire ReturnWire,
            tasks s1 = tasks s → sent s1 = sent s →
            listenerFaults s1 = listenerFaults s → map s1 = map s →
            promises s1 = promises s →
            let s2 := await (AfterSerializeError (Resolves u)) s1 in
            let s' := step host implementation options s2
                        (Resume (length (tasks s))) in
            sent s' = sent s ++ [OnReturn u]
            ∧ listenerFaults s' = listenerFaults s
            ∧ map s' = map s ∧ promises s' = promises s) as Hrun.
  { intros s1 Hts Hs Hf Hm Hp. simpl. rewrite Hts.
    rewrite list_lookup_middle by done. simpl.
    destruct (send_frame (OnReturn u)
                (with_tasks (delete (length (tasks s)))
                   (await (AfterSerializeError (Resolves u)) s1)))
      as (-> & -> & _ & -> & _ & ->).
    simpl. by rewrite Hs, Hf, Hm, Hp. }
  unfold catch. rewrite Hser, Hnull.
  destruct (writeToConsole options).
  - apply (Hrun (write _ s)); done.
  - apply (Hrun s); done.
Qed.

End Invariant.

(** ** Equations of the handlers *)

Section Equations.

Context {CallWire ReturnWire : Type}.
Context `{!Reflected CallWire, !Reflected ReturnWire}.
Variable host : Host.

Lemma applyMetadata_primitive obj metadata :
  isObject obj = false → applyMetadata host obj metadata = obj.
Proof. intros H. unfold applyMetadata. by rewrite H. Qed.

Lemma applyMetadata_no_entries obj : applyMetadata host obj (Some ∅) = obj.
Proof.
  unfold applyMetadata. destruct (isObject obj) eqn:E; simpl; [|done].
  destruct (has_defineMetadata host); simpl; [|done].
  destruct obj; simpl in *; try done; by rewrite (left_id_L ∅ (∪)).
Qed.

(** The object that [defineMetadata] returns to [apply] has no property
    of its own, so [apply] writes nothing onto [obj]. *)
Lemma apply_unchanged data metadataOnResponse obj :
  apply host data metadataOnResponse obj = obj.
Proof.
  unfold apply.
  assert (∀ m, ∃ md, applyMetadata host (Obj ∅ ∅) m = Obj md ∅) as Happ.
  { intros [m|]; unfold applyMetadata; simpl; [|by eexists].
    destruct (has_defineMetadata host); simpl; by eexists. }
  destruct (Happ (Response.metadata data)) as [md ->].
  assert (entries (defineMetadata host (Obj md ∅) "async-call-response"
            (applyMetadata host (Obj ∅ ∅) metadataOnResponse)) = ∅) as ->.
  { unfold defineMetadata. simpl. by destruct (has_defineMetadata host). }
  apply applyMetadata_no_entries.
Qed.

Lemma getProp_errorInfo_message message stack :
  getProp (errorInfo message stack) "message" = message.
Proof. reflexivity. Qed.

Lemma getProp_errorInfo_stack message stack :
  getProp (errorInfo message stack) "stack" = stack.
Proof. reflexivity. Qed.


Lemma newError_Str message :
  newError host (Str message)
  = Err ∅ message (Str (stackTrace host message)).
Proof. reflexivity. Qed.

Lemma promise_settle_same p out (s : State CallWire ReturnWire) :
  promises s !! p = Some Pending → promise (settle p out s) p = out.
Proof.
  intros H. unfold promise. rewrite (settle_held s p out H).
  rewrite list_lookup_insert_eq; [done|]. by eapply lookup_lt_Some.
Qed.

Lemma promise_settle_other p q out (s : State CallWire ReturnWire) :
  p ≠ q → promise (settle p out s) q = promise s q.
Proof.
  intros Hne. unfold promise, settle. simpl.
  destruct (promises s !! p) as [[| | |]|]; try done.
  by rewrite list_lookup_insert_ne.
Qed.

(** A promise whose [resolve] or [reject] was called stays as it is,
    whatever is called on it. *)
Lemma promise_settle_locked p q out (s : State CallWire ReturnWire) :
  locked (promise s q) = true → promise (settle p out s) q = promise s q.
Proof.
  intros Hs. destruct (decide (p = q)) as [->|Hne];
    [|by apply promise_settle_other].
  unfold promise, settle in *. simpl.
  destruct (promises s !! q) as [[| | |]|] eqn:E; simpl in *; rewrite ?E;
    done.
Qed.

Lemma settled_locked (st : PromiseState) :
  settled st = true → locked st = true.
Proof. by destruct st. Qed.

(** A thenable is followed; any other value fulfils. *)
Lemma settled_resolveWith value :
  settled (resolveWith value) = negb (thenable value).
Proof. unfold resolveWith. by destruct (thenable value). Qed.

Lemma locked_resolveWith value : locked (resolveWith value) = true.
Proof. unfold resolveWith. by destruct (thenable value). Qed.

End Equations.

(** ** The Response Dispatcher on one response *)

Section Responses.

Context {CallWire ReturnWire : Type}.
Context `{!Reflected CallWire, !Reflected ReturnWire}.
Variable host : Host.
Variable implementation : Implementation.
Variable options : AsyncCallOptions CallWire ReturnWire.

Implicit Types s : State CallWire ReturnWire.

Lemma response_unknown s md data :
  Map.get (Response.callId data) (map s) = None →
  afterDeserializeResponse host options md (Resolves data) s = s.
Proof. intros H. simpl. by rewrite H. Qed.

Lemma response_registered s md data p :
  Map.get (Response.callId data) (map s) = Some p →
  promises s !! p = Some Pending →
  let s' := afterDeserializeResponse host options md (Resolves data) s in
  promise s' p = carried host data md
  ∧ map s' = Map.delete (Response.callId data) (map s)
  ∧ (∀ q, q ≠ p → promise s' q = promise s q)
  ∧ sent s' = sent s ∧ tasks s' = tasks s
  ∧ listenerFaults s' = listenerFaults s.
Proof.
  intros Hget Hpend. simpl. rewrite Hget. unfold carried.
  set (s1 := with_map (Map.delete (Response.callId data)) s).
  assert (promises s1 !! p = Some Pending) as Hpend1 by done.
  pose proof (fun out => promise_settle_same p out s1 Hpend1) as Hsame.
  pose proof (fun q out (Hq : q ≠ p) =>
                promise_settle_other p q out s1 (not_eq_sym Hq)) as Hother.
  destruct (dataError data) as [e|]; [destruct (writeToConsole options)|];
    repeat split; try done; try apply Hsame; intros q Hq; by apply Hother.
Qed.

(** Two entries of the registry under different keys belong to different
    promises. *)
Lemma registered_apart s id1 id2 p1 p2 :
  invariant s →
  Map.get id1 (map s) = Some p1 → Map.get id2 (map s) = Some p2 →
  id1 ≠ id2 → p1 ≠ p2.
Proof.
  intros Hinv H1 H2 Hne ->.
  pose proof (inv_handles s Hinv) as Hnd. unfold handles in Hnd.
  apply NoDup_app in Hnd as [Hnd _]. unfold Map.values in Hnd.
  apply Map_get_Some in H1, H2.
  apply list_elem_of_lookup in H1 as [i Hi], H2 as [j Hj].
  assert (i = j) as ->.
  { apply (NoDup_lookup _ i j p2 Hnd); rewrite list_lookup_fmap.
    - by rewrite Hi.
    - by rewrite Hj. }
  congruence.
Qed.

Lemma registered_pending s id p :
  invariant s → Map.get id (map s) = Some p →
  promises s !! p = Some Pending.
Proof.
  intros Hinv H. apply (inv_pending s Hinv). unfold handles.
  apply elem_of_app. left. unfold Map.values.
  apply list_elem_of_fmap. exists (id, p). split; [done|].
  by apply Map_get_Some.
Qed.

(** A promise whose [resolve] or [reject] was called is not changed by
    any event. *)
Lemma step_locked_stable s e p :
  locked (promise s p) = true →
  promise (step host implementation options s e) p = promise s p.
Proof.
  intros Hs.
  assert (∀ s', promises s' = promises s → promise s' p = promise s p)
    as Hsame by (intros s' H'; unfold promise; by rewrite H').
  assert (∀ s0 s', promises s0 = promises s → keeps s0 s' →
            promise s' p = promise s p) as Hkeeps.
  { intros s0 s' H0 (_ & H' & _). apply Hsame. congruence. }
  destruct e as [method args id|pkt|n]; simpl.
  - assert (p < length (promises s)) as Hlt.
    { unfold promise in Hs. destruct (promises s !! p) eqn:E; [|done].
      by eapply lookup_lt_Some. }
    destruct method; unfold promise; simpl; by rewrite lookup_app_l.
  - apply Hsame. by destruct (listen_frame host options pkt s) as (_&?&_).
  - destruct (tasks s !! n) as [t|]; [|done].
    set (s0 := with_tasks (base.delete n) s).
    destruct t as [q id r|md r|data r|data r|r|md r]; simpl.
    + destruct r as [w|reason]; simpl.
      * apply Hsame. simpl.
        by destruct (send_frame host options (OnCall w) s0) as (_&?&_).
      * by apply (promise_settle_locked q p _ s0).
    + apply (Hkeeps s0); [done|apply keeps_afterDeserializeCall].
    + apply (Hkeeps s0); [done|apply keeps_afterExecutor].
    + apply (Hkeeps s0); [done|apply keeps_afterSerializeResult].
    + apply (Hkeeps s0); [done|apply keeps_afterSerializeError].
    + destruct r as [data|reason]; simpl; [|done].
      destruct (Map.get (Response.callId data) (map s)) as [q|]; [|done].
      set (s1 := with_map (Map.delete (Response.callId data)) s0).
      destruct (dataError data) as [e|].
      * destruct (writeToConsole options);
          by apply (promise_settle_locked q p _ s1).
      * by apply (promise_settle_locked q p _ s1).
Qed.

Lemma steps_locked_stable s es p :
  locked (promise s p) = true →
  promise (steps host implementation options s es) p = promise s p.
Proof.
  revert s. induction es as [|e es IH]; intros s Hs; simpl; [done|].
  pose proof (step_locked_stable s e p Hs) as H.
  rewrite IH; [done|]. by rewrite H.
Qed.

(** A promise that is settled is not changed by any event. *)
Lemma step_settled_stable s e p :
  settled (promise s p) = true →
  promise (step host implementation options s e) p = promise s p.
Proof. intros Hs. by apply step_locked_stable, settled_locked. Qed.

Lemma settlements_none s es p :
  settled (promise s p) = true →
  settlements host implementation options s es p = 0.
Proof.
  revert s. induction es as [|e es IH]; intros s Hs; simpl; [done|].
  pose proof (step_settled_stable s e p Hs) as Hst.
  rewrite IH by (by rewrite Hst). unfold settles. by rewrite Hs.
Qed.

Lemma settlements_at_most_one s es p :
  settlements host implementation options s es p ≤ 1.
Proof.
  revert s. induction es as [|e es IH]; intros s; simpl; [lia|].
  destruct (settles s (step host implementation options s e) p) eqn:E.
  - apply andb_prop in E as [_ E]. rewrite settlements_none by done. lia.
  - apply IH.
Qed.

Lemma resolutions_none s es p :
  locked (promise s p) = true →
  resolutions host implementation options s es p = 0.
Proof.
  revert s. induction es as [|e es IH]; intros s Hs; simpl; [done|].
  pose proof (step_locked_stable s e p Hs) as Hst.
  rewrite IH by (by rewrite Hst). unfold resolves. by rewrite Hs.
Qed.

Lemma resolutions_at_most_one s es p :
  resolutions host implementation options s es p ≤ 1.
Proof.
  revert s. induction es as [|e es IH]; intros s; simpl; [lia|].
  destruct (resolves s (step host implementation options s e) p) eqn:E.
  - apply andb_prop in E as [_ E]. rewrite resolutions_none by done. lia.
  - apply IH.
Qed.

(** Resuming the continuation of a response whose identifier is not
    registered only takes the continuation off the list. *)
Lemma resume_unknown s n md data :
  tasks s !! n = Some (AfterDeserializeResponse md (Resolves data)) →
  Map.get (Response.callId data) (map s) = None →
  step host implementation options s (Resume n)
  = with_tasks (base.delete n) s.
Proof. intros Ht Hget. simpl. rewrite Ht. simpl. by rewrite Hget. Qed.

End Responses.

(** ** Running two instances *)

Lemma getProp_Err_message md message stack :
  getProp (Err md message stack) "message" = Str message.
Proof. reflexivity. Qed.

Lemma getProp_Err_stack md message stack :
  getProp (Err md message stack) "stack" = stack.
Proof. reflexivity. Qed.

Lemma truthy_errorInfo message stack : truthy (errorInfo message stack) = true.
Proof. reflexivity. Qed.

Lemma world_steps_cons {CallWire ReturnWire : Type}
    `{!Reflected CallWire, !Reflected ReturnWire}
    (near far : Peer CallWire ReturnWire) w e es w' :
  world_step near far w e = w' →
  world_steps near far w (e :: es) = world_steps near far w' es.
Proof. by intros <-. Qed.

(** Evaluation of a handler on a state that is given field by field. *)
Ltac normalize :=
  repeat progress
    (cbn -[gmap_lookup member apply getProp errorInfo notImplemented];
     cbv [with_map with_promises with_tasks write record_sent fail await
          settle init catch errorResponse];
     rewrite ?apply_unchanged, ?getProp_errorInfo_message,
       ?getProp_errorInfo_stack, ?getProp_Err_message, ?getProp_Err_stack,
       ?truthy_errorInfo, ?newError_Str, ?String.eqb_refl).

Ltac normalize_in H :=
  cbn -[gmap_lookup member apply getProp errorInfo notImplemented] in H.

(** The lookup of a member that is there, and its call. *)
Ltac call_member Himpl Hmeta Hex :=
  rewrite Himpl; normalize; rewrite ?Hmeta; normalize; rewrite Hex.

(** One event of a run of two instances; [tac] rewrites with the
    hypotheses on the serializer or the implementation that the event
    needs. *)
Ltac world_event tac :=
  erewrite world_steps_cons; [|normalize; tac; normalize; reflexivity].

(** * The claims *)

Section OneInstance.

Context {CallWire ReturnWire : Type}.
Context `{!Reflected CallWire, !Reflected ReturnWire}.
Variable host : Host.
Variable implementation : Implementation.
Variable options : AsyncCallOptions CallWire ReturnWire.

Implicit Types s : State CallWire ReturnWire.

Local Abbreviation step := (step host implementation options).
Local Abbreviation steps := (steps host implementation options).
Local Abbreviation reachable := (reachable host implementation options).

Lemma carried_locked data md : locked (carried host data md) = true.
Proof.
  unfold carried. destruct (dataError data); [done|].
  apply locked_resolveWith.
Qed.


(** The response settles the call unless it carries no truthy error and
    a thenable under [return]. *)
Lemma settled_carried data md :
  settled (carried host data md)
  = match dataError data with
    | Some _ => true
    | None => negb (thenable (Response.return_ data))
    end.
Proof.
  unfold carried. destruct (dataError data); [done|].
  by rewrite apply_unchanged, settled_resolveWith.
Qed.

Lemma steps_settled_stable s es p :
  settled (promise s p) = true → promise (steps s es) p = promise s p.
Proof.
  revert s. induction es as [|e es IH]; intros s Hs; simpl; [done|].
  pose proof (step_settled_stable host implementation options s e p Hs) as H.
  rewrite IH; [done|]. by rewrite H.
Qed.

(** What resuming the continuation of a response does when its identifier
    is registered. *)
Lemma resume_registered s n md data p :
  reachable s →
  tasks s !! n = Some (AfterDeserializeResponse md (Resolves data)) →
  Map.get (Response.callId data) (map s) = Some p →
  let s' := step s (Resume n) in
  promises s !! p = Some Pending
  ∧ promise s' p = carried host data md
  ∧ Map.get (Response.callId data) (map s') = None
  ∧ (∀ q, q ≠ p → promise s' q = promise s q)
  ∧ sent s' = sent s
  ∧ tasks s' = base.delete n (tasks s)
  ∧ map s' = Map.delete (Response.callId data) (map s).
Proof.
  intros Hreach Ht Hget.
  pose proof (reachable_invariant _ _ _ s Hreach) as Hinv.
  pose proof (registered_pending s _ p Hinv Hget) as Hpend.
  simpl. rewrite Ht.
  destruct (response_registered host options (with_tasks (base.delete n) s)
              md data p Hget Hpend) as (H1 & H2 & H3 & H4 & H5 & _).
  simpl in H1, H2, H3, H4, H5. repeat split.
  - exact Hpend.
  - exact H1.
  - simpl in *. rewrite H2. apply Map_get_delete_eq, Hinv.
  - exact H3.
  - exact H4.
  - exact H5.
  - exact H2.
Qed.

(** An event that does not concern [id] leaves the entry of [id] as it
    is. *)
Lemma unconcerned_step s e id :
  concerns id s e = false →
  Map.get id (map (step s e)) = Map.get id (map s).
Proof.
  intros Hc.
  assert (∀ s0 s', map s0 = map s → keeps s0 s' →
            Map.get id (map s') = Map.get id (map s)) as Hkeeps.
  { intros s0 s' H0 (Hm & _). by rewrite Hm, H0. }
  destruct e as [method args id'|pkt|n]; simpl in *.
  - by destruct method.
  - by destruct (listen_frame host options pkt s) as (->&_).
  - destruct (tasks s !! n) as [t|] eqn:Ht; [|done].
    set (s0 := with_tasks (base.delete n) s).
    destruct t as [q id' r|md r|data r|data r|r|md r]; simpl.
    + destruct r as [w|reason]; simpl; [|done].
      destruct (send_frame host options (OnCall w) s0) as (-> & _).
      apply String.eqb_neq in Hc. by rewrite Map_get_set_ne.
    + apply (Hkeeps s0); [done|apply keeps_afterDeserializeCall].
    + apply (Hkeeps s0); [done|apply keeps_afterExecutor].
    + apply (Hkeeps s0); [done|apply keeps_afterSerializeResult].
    + apply (Hkeeps s0); [done|apply keeps_afterSerializeError].
    + destruct r as [data|reason]; simpl; [|done].
      destruct (Map.get (Response.callId data) (map s)) as [q|]; [|done].
      apply String.eqb_neq in Hc.
      assert (Map.get id (Map.delete (Response.callId data) (map s))
              = Map.get id (map s)) as Hdel by (by apply Map_get_delete_ne).
      destruct (dataError data); [destruct (writeToConsole options)|];
        exact Hdel.
Qed.

Lemma undisturbed_steps s es id :
  undisturbed host implementation options id s es = true →
  Map.get id (map (steps s es)) = Map.get id (map s).
Proof.
  revert s. induction es as [|e es IH]; intros s H; simpl in *; [done|].
  apply andb_prop in H as [Hc Hes]. apply negb_true_iff in Hc.
  rewrite IH by done. by apply unconcerned_step.
Qed.

(** C1, as the code has it.  The first response that is dispatched for
    a registered callId finds the entry, takes it out and calls [reject]
    or [resolve] on the caller's promise, which was pending: the promise
    is rejected with the rebuilt error when [error] is truthy and resolved
    with [return] otherwise.  That settles it, except when there is no
    truthy error and [return] is a thenable, which the promise then
    follows.  A later response with the same callId is dropped, no later
    event changes the promise, and over any run at most one event
    settles, and at most one resolves, a given promise. *)
Theorem C1_first_response_resolves_the_call :
  (∀ s n md data p,
     reachable s →
     tasks s !! n = Some (AfterDeserializeResponse md (Resolves data)) →
     Map.get (Response.callId data) (map s) = Some p →
     let s' := step s (Resume n) in
     promises s !! p = Some Pending
     ∧ Map.get (Response.callId data) (map s') = None
     ∧ promise s' p = carried host data md
     ∧ settled (promise s' p)
       = match dataError data with
         | Some _ => true
         | None => negb (thenable (Response.return_ data))
         end
     ∧ (∀ m md' data',
          tasks s' !! m
            = Some (AfterDeserializeResponse md' (Resolves data')) →
          Response.callId data' = Response.callId data →
          step s' (Resume m) = with_tasks (base.delete m) s')
     ∧ (∀ es, promise (steps s' es) p = carried host data md))
  ∧ (∀ s es p,
       settlements host implementation options s es p ≤ 1
       ∧ resolutions host implementation options s es p ≤ 1).
Proof.
  split.
  - intros s n md data p Hreach Ht Hget s'.
    destruct (resume_registered s n md data p Hreach Ht Hget)
      as (H1 & H2 & H3 & _).
    fold s' in H2, H3. repeat split; try done.
    + by rewrite H2, settled_carried.
    + intros m md' data' Hm Hid.
      apply (resume_unknown _ _ _ _ _ md' data' Hm). by rewrite Hid.
    + intros es. rewrite steps_locked_stable; [done|].
      by rewrite H2, carried_locked.
  - intros s es p. split.
    + apply settlements_at_most_one.
    + apply resolutions_at_most_one.
Qed.

(** C7, as the code has it.  In every reachable state two different
    entries of the Call Registry have different callIds and different,
    pending promises.  The identifier of a call is whatever was drawn: it
    is not compared with the registry.  When a call has drawn the
    identifier of a registered call, the continuation of its
    serialization publishes its request under that callId, its promise
    takes the place of the earlier one in the registry, and the earlier
    promise is from then on out of reach: it stays pending and is never
    registered again. *)
Theorem C7_registry_keys_are_distinct_but_draws_may_repeat :
  (∀ s i j id_i p_i id_j p_j,
     reachable s →
     map s !! i = Some (id_i, p_i) →
     map s !! j = Some (id_j, p_j) →
     i ≠ j →
     id_i ≠ id_j ∧ p_i ≠ p_j
     ∧ promises s !! p_i = Some Pending ∧ promises s !! p_j = Some Pending
     ∧ Map.get id_i (map s) = Some p_i ∧ Map.get id_j (map s) = Some p_j)
  ∧ (∀ s method args id,
       let s' := step s (Invoke (StringKey method) args id) in
       map s' = map s
       ∧ tasks s'
         = tasks s
           ++ [AfterSerializeRequest (length (promises s)) id
                 (serialization (onCall (serializer options))
                    (buildRequest host method args id))])
  ∧ (∀ s k p q id payload,
       reachable s →
       Map.get id (map s) = Some p →
       tasks s !! k = Some (AfterSerializeRequest q id (Resolves payload)) →
       let s' := step s (Resume k) in
       q ≠ p
       ∧ sent s' = sent s ++ [OnCall payload]
       ∧ Map.get id (map s') = Some q
       ∧ ∀ es,
           promises (steps s' es) !! p = Some Pending
           ∧ ∀ id', Map.get id' (map (steps s' es)) ≠ Some p).
Proof.
  split; [|split].
  - intros s i j id_i p_i id_j p_j Hreach Hi Hj Hne.
    pose proof (reachable_invariant _ _ _ s Hreach) as Hinv.
    pose proof (inv_keys s Hinv) as Hk. unfold Map.keys in Hk.
    assert (id_i ≠ id_j) as Hid.
    { intros ->. apply Hne.
      apply (NoDup_lookup _ i j id_j Hk); rewrite list_lookup_fmap.
      - by rewrite Hi.
      - by rewrite Hj. }
    assert (Map.get id_i (map s) = Some p_i) as Gi.
    { apply Map_get_elem_of; [apply Hinv|].
      by eapply list_elem_of_lookup_2. }
    assert (Map.get id_j (map s) = Some p_j) as Gj.
    { apply Map_get_elem_of; [apply Hinv|].
      by eapply list_elem_of_lookup_2. }
    repeat split; try done.
    + by apply (registered_apart s id_i id_j).
    + by apply (registered_pending s id_i p_i).
    + by apply (registered_pending s id_j p_j).
  - done.
  - intros s k p q id payload Hreach Hget Hk s'.
    pose proof (reachable_invariant _ _ _ s Hreach) as Hinv.
    pose proof (registered_pending s id p Hinv Hget) as Hpend.
    pose proof (handles_resumed s k _ Hk) as Hperm. simpl in Hperm.
    pose proof (inv_handles s Hinv) as Hnd. rewrite Hperm in Hnd.
    apply NoDup_cons in Hnd as [Hq Hnd].
    assert (p ∈ Map.values (map s)) as Hin.
    { unfold Map.values. apply list_elem_of_fmap. exists (id, p).
      split; [done|]. by apply Map_get_Some. }
    assert (q ≠ p) as Hqp.
    { intros ->. apply Hq. unfold handles. simpl. apply elem_of_app.
      by left. }
    assert (s' = with_map (Map.set id q)
                   (send host options (OnCall payload)
                      (with_tasks (base.delete k) s))) as Hs'.
    { unfold s'. simpl. by rewrite Hk. }
    destruct (send_frame host options (OnCall payload)
                (with_tasks (base.delete k) s))
      as (Hm & Hps & Hr & Hsent & _).
    assert (p ∉ handles s') as Hout.
    { rewrite Hs'. unfold handles. simpl. rewrite Hm, Hr. simpl.
      rewrite Map_values_set, not_elem_of_app, not_elem_of_cons.
      unfold handles in Hnd. simpl in Hnd.
      apply NoDup_app in Hnd as (Hv & Hdisj & _).
      repeat split; [congruence| |by apply Hdisj].
      unfold Map.values. intros Hd.
      apply list_elem_of_fmap in Hd as [[id' p'] [Heq Hd]]. simpl in Heq.
      subst p'.
      assert (NoDup (Map.keys (Map.delete id (map s)))
              ∧ id ∉ Map.keys (Map.delete id (map s))) as [Hkd Hid]
        by (apply Map_keys_delete, Hinv).
      assert (id' ≠ id) as Hne'.
      { intros ->. apply Hid. unfold Map.keys. apply list_elem_of_fmap.
        by exists (id, p). }
      assert ((id', p) ∈ map s) as Hin'.
      { rewrite (Map_delete_Permutation _ _ _ Hget).
        by apply list_elem_of_further. }
      pose proof (Map_get_elem_of _ _ _ (inv_keys s Hinv) Hin') as Hget'.
      by apply (registered_apart s id' id p p Hinv Hget' Hget). }
    assert (promises s' = promises s) as Hps'.
    { rewrite Hs'. simpl. by rewrite Hps. }
    repeat split; try done.
    + rewrite Hs'. simpl. by rewrite Hsent.
    + rewrite Hs'. simpl. apply Map_get_set_eq.
    + destruct (unheld_steps host implementation options s' es p)
        as [H1 _]; [by constructor| |done|].
      * rewrite Hps'. by eapply lookup_lt_Some.
      * by rewrite H1, Hps'.
    + intros id' Hget'.
      destruct (unheld_steps host implementation options s' es p)
        as [_ H2]; [by constructor| |done|].
      * rewrite Hps'. by eapply lookup_lt_Some.
      * apply H2. unfold handles. apply elem_of_app. left.
        unfold Map.values. apply list_elem_of_fmap. exists (id', p).
        split; [done|]. by apply Map_get_Some.
Qed.

(** C8. A response whose callId is not in the Call Registry changes
    nothing and surfaces no error: resuming its continuation leaves the
    registry, the promises, what was sent, the console and the listener
    faults as they were, and delivering it and resuming it at once gives
    the very same state. *)
Theorem C8_unknown_callId_changes_nothing s data n md w :
  Map.get (Response.callId data) (map s) = None →
  tasks s !! n = Some (AfterDeserializeResponse md (Resolves data)) →
  deserialization (onReturn (serializer options)) w = Resolves data →
  silent s (step s (Resume n))
  ∧ tasks (step s (Resume n)) = base.delete n (tasks s)
  ∧ steps s [Deliver (OnReturn w); Resume (length (tasks s))] = s.
Proof.
  intros Hget Ht Hw. split; [|split].
  - by rewrite (resume_unknown host implementation options s n md data Ht Hget).
  - by rewrite (resume_unknown host implementation options s n md data Ht Hget).
  - simpl. rewrite Hw.
    rewrite list_lookup_middle by done. simpl. rewrite Hget.
    destruct s as [mp ps st c ts lf]. unfold with_tasks. simpl. f_equal.
    rewrite delete_middle. apply app_nil_r.
Qed.

(** Two responses for two registered calls, one after the other. *)
Lemma one_then_other s na nb da db ma mb pa pb :
  reachable s →
  tasks s !! na = Some (AfterDeserializeResponse ma (Resolves da)) →
  tasks (step s (Resume na)) !! nb
    = Some (AfterDeserializeResponse mb (Resolves db)) →
  Map.get (Response.callId da) (map s) = Some pa →
  Map.get (Response.callId db) (map s) = Some pb →
  Response.callId da ≠ Response.callId db →
  let s' := steps s [Resume na; Resume nb] in
  promise s' pa = carried host da ma ∧ promise s' pb = carried host db mb.
Proof.
  intros Hreach Ha Hb Ga Gb Hne.
  pose proof (reachable_invariant _ _ _ s Hreach) as Hinv.
  pose proof (registered_apart s _ _ pa pb Hinv Ga Gb Hne) as Hp.
  destruct (resume_registered s na ma da pa Hreach Ha Ga)
    as (_ & H1 & _ & _ & _ & _ & Hmap).
  set (s1 := step s (Resume na)) in *.
  assert (reachable s1) as Hreach1 by (by constructor).
  assert (Map.get (Response.callId db) (map s1) = Some pb) as Gb1.
  { rewrite Hmap. by rewrite Map_get_delete_ne. }
  destruct (resume_registered s1 nb mb db pb Hreach1 Hb Gb1)
    as (_ & H2 & _ & Hothers & _).
  change (promise (step s1 (Resume nb)) pa = carried host da ma
          ∧ promise (step s1 (Resume nb)) pb = carried host db mb).
  split; [|exact H2]. rewrite (Hothers pa Hp). exact H1.
Qed.

(** The continuations of two responses for two registered calls with
    different identifiers, resumed in either order. *)
Lemma two_responses_in_either_order s n1 n2 data1 data2 md1 md2 p1 p2 :
  reachable s →
  tasks s !! n1 = Some (AfterDeserializeResponse md1 (Resolves data1)) →
  tasks s !! n2 = Some (AfterDeserializeResponse md2 (Resolves data2)) →
  n1 < n2 →
  Map.get (Response.callId data1) (map s) = Some p1 →
  Map.get (Response.callId data2) (map s) = Some p2 →
  Response.callId data1 ≠ Response.callId data2 →
  let inOrder := steps s [Resume n1; Resume (n2 - 1)] in
  let reversed := steps s [Resume n2; Resume n1] in
  promise inOrder p1 = carried host data1 md1
  ∧ promise inOrder p2 = carried host data2 md2
  ∧ promise reversed p1 = carried host data1 md1
  ∧ promise reversed p2 = carried host data2 md2.
Proof.
  intros Hreach H1 H2 Hlt G1 G2 Hne.
  destruct (resume_registered s n1 md1 data1 p1 Hreach H1 G1)
    as (_ & _ & _ & _ & _ & Ht1 & _).
  destruct (resume_registered s n2 md2 data2 p2 Hreach H2 G2)
    as (_ & _ & _ & _ & _ & Ht2 & _).
  destruct (one_then_other s n1 (n2 - 1) data1 data2 md1 md2 p1 p2)
    as [Ha Hb]; try done.
  { rewrite Ht1, list_lookup_delete_ge by lia.
    by replace (S (n2 - 1)) with n2 by lia. }
  destruct (one_then_other s n2 n1 data2 data1 md2 md1 p2 p1)
    as [Hc Hd]; try done.
  { by rewrite Ht2, list_lookup_delete_lt by lia. }
Qed.





(** An entry enters the registry only in the continuation of a
    serialization that succeeded. *)
Lemma registered_after_serialization s e id p :
  reachable s →
  Map.get id (map (step s e)) = Some p →
  Map.get id (map s) ≠ Some p →
  ∃ n data, e = Resume n
            ∧ tasks s !! n = Some (AfterSerializeRequest p id (Resolves data))
            ∧ sent (step s e) = sent s ++ [OnCall data].
Proof.
  intros Hreach Hafter Hbefore.
  pose proof (reachable_invariant _ _ _ s Hreach) as Hinv.
  assert (∀ s0 s', map s0 = map s → keeps s0 s' →
            Map.get id (map s') = Some p → False) as Hkeeps.
  { intros s0 s' H0 (Hm & _) H. rewrite Hm, H0 in H. done. }
  destruct e as [method args id'|pkt|n]; simpl in Hafter.
  - destruct method; done.
  - by destruct (listen_frame host options pkt s) as (Hm&_); rewrite Hm in Hafter.
  - destruct (tasks s !! n) as [t|] eqn:Ht; [|done].
    set (s0 := with_tasks (base.delete n) s) in *.
    destruct t as [q id' r|md r|data r|data r|r|md r]; simpl in Hafter.
    + destruct r as [w|reason]; simpl in Hafter; [|done].
      destruct (send_frame host options (OnCall w) s0)
        as (Hm & _ & _ & Hsent & _).
      rewrite Hm in Hafter. simpl in Hafter.
      destruct (decide (id' = id)) as [->|Hne].
      * rewrite Map_get_set_eq in Hafter. injection Hafter as ->.
        exists n, w. repeat split; [done|]. simpl. by rewrite Ht.
      * by rewrite Map_get_set_ne in Hafter.
    + exfalso. eapply (Hkeeps s0); [done|apply keeps_afterDeserializeCall|done].
    + exfalso. eapply (Hkeeps s0); [done|apply keeps_afterExecutor|done].
    + exfalso. eapply (Hkeeps s0); [done|apply keeps_afterSerializeResult|done].
    + exfalso. eapply (Hkeeps s0); [done|apply keeps_afterSerializeError|done].
    + destruct r as [data|reason]; simpl in Hafter; [|done].
      destruct (Map.get (Response.callId data) (map s)) as [q|] eqn:Hq;
        [|done].
      assert (Map.get id (Map.delete (Response.callId data) (map s)) = Some p)
        as Hdel.
      { destruct (dataError data); [destruct (writeToConsole options)|];
          exact Hafter. }
      destruct (decide (Response.callId data = id)) as [<-|Hne].
      * rewrite Map_get_delete_eq in Hdel by apply Hinv. done.
      * by rewrite Map_get_delete_ne in Hdel.
Qed.

(** C6. A call builds its request, hands it to the serializer and
    returns a pending promise; nothing is published or registered by the
    call itself.  When the serializer rejects the request, the rejection
    callback of line 268 rejects the caller's promise with that failure,
    publishes nothing and leaves the registry as it was, and the call is
    never registered afterwards.  An entry enters the registry only in
    the continuation of a serialization that succeeded, which is also the
    step that publishes the request. *)
Theorem C6_serialization_failure_rejects_the_call :
  (∀ s method args id,
     let p := length (promises s) in
     let s' := step s (Invoke (StringKey method) args id) in
     promises s' = promises s ++ [Pending]
     ∧ tasks s'
       = tasks s
         ++ [AfterSerializeRequest p id
               (serialization (onCall (serializer options))
                  (buildRequest host method args id))]
     ∧ sent s' = sent s ∧ map s' = map s)
  ∧ (∀ s n p id reason,
       reachable s →
       tasks s !! n = Some (AfterSerializeRequest p id (Rejects reason)) →
       let s' := step s (Resume n) in
       promises s !! p = Some Pending
       ∧ promise s' p = Rejected reason
       ∧ sent s' = sent s ∧ map s' = map s
       ∧ tasks s' = base.delete n (tasks s)
       ∧ ∀ es,
           promise (steps s' es) p = Rejected reason
           ∧ ∀ id', Map.get id' (map (steps s' es)) ≠ Some p)
  ∧ (∀ s e id p,
       reachable s →
       Map.get id (map (step s e)) = Some p →
       Map.get id (map s) ≠ Some p →
       ∃ n data,
         e = Resume n
         ∧ tasks s !! n = Some (AfterSerializeRequest p id (Resolves data))
         ∧ sent (step s e) = sent s ++ [OnCall data]).
Proof.
  split; [done|]. split; [|apply registered_after_serialization].
  intros s n p id reason Hreach Ht s'.
  pose proof (reachable_invariant _ _ _ s Hreach) as Hinv.
  assert (promises s !! p = Some Pending) as Hpend.
  { apply (inv_pending s Hinv). rewrite (handles_resumed s n _ Ht).
    apply list_elem_of_here. }
  assert (s' = settle p (Rejected reason) (with_tasks (base.delete n) s))
    as Hs'.
  { unfold s'. simpl. by rewrite Ht. }
  assert (promise s' p = Rejected reason) as Hrej.
  { rewrite Hs'. by apply promise_settle_same. }
  assert (∀ es, promise (steps s' es) p = Rejected reason) as Hstays.
  { intros es. rewrite steps_locked_stable; [done|]. by rewrite Hrej. }
  repeat split; try done; try (by rewrite Hs').
  intros id' Hget.
  assert (reachable (steps s' es)) as Hreach'.
  { apply reachable_steps. by constructor. }
  pose proof (registered_pending _ id' p
                (reachable_invariant _ _ _ _ Hreach') Hget) as Hp.
  specialize (Hstays es). unfold promise in Hstays.
  rewrite Hp in Hstays. done.
Qed.

(** C9, as the code has it.  When the deserialization of an incoming
    payload rejects, on either channel, the dispatch stops there: nothing
    is sent, no registry entry and no promise is touched, nothing is
    logged and no continuation is left; the listener's own promise is
    rejected with the failure of the deserialization. *)
Theorem C9_deserialization_failure_stops_the_dispatch s pkt reason :
  match pkt with
  | OnCall w =>
      deserialization (onCall (serializer options)) w = Rejects reason
  | OnReturn w =>
      deserialization (onReturn (serializer options)) w = Rejects reason
  end →
  let s' := steps s [Deliver pkt; Resume (length (tasks s))] in
  sent s' = sent s ∧ map s' = map s ∧ promises s' = promises s
  ∧ console s' = console s ∧ tasks s' = tasks s
  ∧ listenerFaults s' = listenerFaults s ++ [Thrown reason].
Proof.
  intros Hde. destruct pkt as [w|w]; simpl; rewrite Hde;
    rewrite list_lookup_middle by done; simpl;
    rewrite delete_middle, app_nil_r; done.
Qed.

(** C10, as the code has it.  The continuation of a successful
    serialization publishes the request and then inserts the pending
    call.  A response for that call which the transport hands to the
    return listener while [send] runs is not looked up at that moment: the
    listener only starts the deserialization and suspends at its
    [await], and the insertion follows.  When the continuation of the
    response runs it finds the entry, takes it out and rejects or
    resolves the caller's promise with what the response carries; that
    settles the promise unless the response has no truthy error and a
    thenable under [return]. *)
Theorem C10_publish_then_register :
  (∀ s n p id data,
     tasks s !! n = Some (AfterSerializeRequest p id (Resolves data)) →
     let published :=
       send host options (OnCall data) (with_tasks (base.delete n) s) in
     let s1 := step s (Resume n) in
     sent published = sent s ++ [OnCall data]
     ∧ map published = map s
     ∧ s1 = with_map (Map.set id p) published
     ∧ Map.get id (map s1) = Some p)
  ∧ (∀ s n p id data w res,
       reachable s →
       tasks s !! n = Some (AfterSerializeRequest p id (Resolves data)) →
       MessageCenter options (OnCall data) = [OnReturn w] →
       deserialization (onReturn (serializer options)) w = Resolves res →
       Response.callId res = id →
       let s1 := step s (Resume n) in
       let s2 := step s1 (Resume (length (base.delete n (tasks s)))) in
       tasks s1 = base.delete n (tasks s)
                  ++ [AfterDeserializeResponse (getMetadata host w)
                        (Resolves res)]
       ∧ promises s1 !! p = Some Pending
       ∧ Map.get id (map s1) = Some p
       ∧ Map.get id (map s2) = None
       ∧ tasks s2 = base.delete n (tasks s)
       ∧ promise s2 p = carried host res (getMetadata host w)
       ∧ settled (promise s2 p)
         = match dataError res with
           | Some _ => true
           | None => negb (thenable (Response.return_ res))
           end
       ∧ ∀ es,
           promise (steps s2 es) p = carried host res (getMetadata host w)).
Proof.
  assert (∀ s n p id data,
            tasks s !! n = Some (AfterSerializeRequest p id (Resolves data)) →
            step s (Resume n)
            = with_map (Map.set id p)
                (send host options (OnCall data)
                   (with_tasks (base.delete n) s))) as Hstep.
  { intros s n p id data Ht. simpl. by rewrite Ht. }
  split.
  - intros s n p id data Ht published s1.
    destruct (send_frame host options (OnCall data)
                (with_tasks (base.delete n) s)) as (Hm & _ & _ & Hsent & _).
    repeat split; try done.
    + by apply Hstep.
    + unfold s1. rewrite (Hstep s n p id data Ht). simpl.
      apply Map_get_set_eq.
  - intros s n p id data w res Hreach Ht Hmc Hde Hid s1 s2.
    assert (reachable s1) as Hreach1 by (by constructor).
    pose proof (Hstep s n p id data Ht) as Hs1. fold s1 in Hs1.
    assert (tasks s1 = base.delete n (tasks s)
              ++ [AfterDeserializeResponse (getMetadata host w)
                    (Resolves res)]) as Hts.
    { rewrite Hs1. unfold send. rewrite Hmc. simpl. by rewrite Hde. }
    assert (Map.get id (map s1) = Some p) as Hget.
    { rewrite Hs1. simpl. apply Map_get_set_eq. }
    assert (tasks s1 !! length (base.delete n (tasks s))
            = Some (AfterDeserializeResponse (getMetadata host w)
                      (Resolves res)))
      as Hlast by (rewrite Hts; by apply list_lookup_middle).
    rewrite <- Hid in Hget.
    destruct (resume_registered s1 _ _ res p Hreach1 Hlast Hget)
      as (H1 & H2 & H3 & _ & _ & H6 & _).
    fold s2 in H2, H3, H6. rewrite Hid in Hget, H3.
    repeat split; try done.
    + rewrite H6, Hts, delete_middle. apply app_nil_r.
    + by rewrite H2, settled_carried.
    + intros es. rewrite steps_locked_stable; [done|].
      by rewrite H2, carried_locked.
Qed.

End OneInstance.

Section TwoInstances.

Context {CallWire ReturnWire : Type}.
Context `{!Reflected CallWire, !Reflected ReturnWire}.
Variable near far : Peer CallWire ReturnWire.

(** Both sides share the serializer, and the transport between them
    delivers only after [send] has returned. *)
Hypothesis near_transport : MessageCenter (peerOptions near) = deliversLater.
Hypothesis far_transport : MessageCenter (peerOptions far) = deliversLater.
Hypothesis shared_serializer :
  serializer (peerOptions far) = serializer (peerOptions near).



(** [{ echo: async x => x }] on the far side; [remote.echo("x")] and
    [remote.echo("y")] on the near side, answered in the reverse order. *)
Lemma echo_in_reverse_order id1 id2 w1 w2 u1 u2 (executor : Member) :
  id1 ≠ id2 →
  member (peerImplementation far) "echo" = Some executor →
  (∀ this x, executor this [x] = Returns (Resolves x)) →
  faithfulOnCall (peerOptions near)
    (buildRequest (peerHost near) "echo" [Str "x"] id1) w1 →
  faithfulOnCall (peerOptions near)
    (buildRequest (peerHost near) "echo" [Str "y"] id2) w2 →
  faithfulOnReturn (peerOptions near)
    {| Response.method := "echo"; Response.return_ := Str "x";
       Response.callId := id1; Response.error := None;
       Response.metadata := None |} u1 →
  faithfulOnReturn (peerOptions near)
    {| Response.method := "echo"; Response.return_ := Str "y";
       Response.callId := id2; Response.error := None;
       Response.metadata := None |} u2 →
  let W := world_steps near far world_init
    [At Near (Invoke (StringKey "echo") [Str "x"] id1);
     At Near (Invoke (StringKey "echo") [Str "y"] id2);
     At Near (Resume 0); At Near (Resume 0);
     Transmit Near 0; Transmit Near 1;
     At Far (Resume 0); At Far (Resume 0);
     At Far (Resume 0); At Far (Resume 0);
     At Far (Resume 0); At Far (Resume 0);
     Transmit Far 1; Transmit Far 0;
     At Near (Resume 0); At Near (Resume 0)] in
  sent (farState W) = [OnReturn u1; OnReturn u2]
  ∧ promise (nearState W) 0 = Fulfilled (Str "x")
  ∧ promise (nearState W) 1 = Fulfilled (Str "y").
Proof.
  revert near_transport far_transport shared_serializer.
  destruct near as [hostN implN [keyN serN mcN dtN wcN]].
  destruct far as [hostF implF [keyF serF mcF dtF wcF]].
  unfold faithfulOnCall, faithfulOnReturn.
  intros Hm1 Hm2 Hser Hne Himpl Hex [Hs1 Hd1] [Hs2 Hd2] [Hs3 Hd3] [Hs4 Hd4].
  normalize_in Hm1. normalize_in Hm2. normalize_in Hser. normalize_in Himpl.
  normalize_in Hs1. normalize_in Hd1. normalize_in Hs2. normalize_in Hd2.
  normalize_in Hs3. normalize_in Hd3. normalize_in Hs4. normalize_in Hd4.
  subst mcN mcF serF.
  assert (String.eqb id2 id1 = false) as E21
    by (apply String.eqb_neq; congruence).
  assert (String.eqb id1 id2 = false) as E12 by (by apply String.eqb_neq).
  destruct wcF, (getMetadata hostF w1) eqn:Hmeta1,
    (getMetadata hostF w2) eqn:Hmeta2.
  all: world_event ltac:(rewrite Hs1).
  all: world_event ltac:(rewrite Hs2).
  all: world_event idtac.
  all: world_event ltac:(rewrite E21).
  all: world_event ltac:(rewrite Hd1).
  all: world_event ltac:(rewrite Hd2).
  all: world_event ltac:(call_member Himpl Hmeta1 Hex).
  all: world_event ltac:(call_member Himpl Hmeta2 Hex).
  all: world_event ltac:(rewrite Hs3).
  all: world_event ltac:(rewrite Hs4).
  all: world_event idtac.
  all: world_event idtac.
  all: world_event ltac:(rewrite Hd4).
  all: world_event ltac:(rewrite Hd3).
  all: world_event ltac:(rewrite ?E21, ?E12).
  all: world_event ltac:(rewrite ?E21, ?E12).
  all: repeat split; reflexivity.
Qed.




End TwoInstances.

(** C2, as the code has it.  Two outstanding calls with distinct call
    identifiers are each rejected or resolved with what the response
    bearing their own callId carries, in whichever order the
    continuations of the two responses run; that settles each of them
    unless its response has no truthy error and a thenable under
    [return].  When [remote.echo("x")] and [remote.echo("y")] are issued
    back to back and answered in the reverse order, the first promise is
    fulfilled with ["x"] and the second with ["y"]. *)
Theorem C2_calls_resolve_by_their_own_callId
    {CallWire ReturnWire : Type}
    `{!Reflected CallWire, !Reflected ReturnWire}
    (near far : Peer CallWire ReturnWire) :
  (∀ (s : State CallWire ReturnWire) n1 n2 data1 data2 md1 md2 p1 p2,
     reachable (peerHost near) (peerImplementation near) (peerOptions near)
       s →
     tasks s !! n1 = Some (AfterDeserializeResponse md1 (Resolves data1)) →
     tasks s !! n2 = Some (AfterDeserializeResponse md2 (Resolves data2)) →
     n1 < n2 →
     Map.get (Response.callId data1) (map s) = Some p1 →
     Map.get (Response.callId data2) (map s) = Some p2 →
     Response.callId data1 ≠ Response.callId data2 →
     let inOrder := steps (peerHost near) (peerImplementation near)
                      (peerOptions near) s [Resume n1; Resume (n2 - 1)] in
     let reversed := steps (peerHost near) (peerImplementation near)
                       (peerOptions near) s [Resume n2; Resume n1] in
     p1 ≠ p2
     ∧ promise inOrder p1 = carried (peerHost near) data1 md1
     ∧ promise inOrder p2 = carried (peerHost near) data2 md2
     ∧ promise reversed p1 = carried (peerHost near) data1 md1
     ∧ promise reversed p2 = carried (peerHost near) data2 md2
     ∧ settled (carried (peerHost near) data1 md1)
       = match dataError data1 with
         | Some _ => true
         | None => negb (thenable (Response.return_ data1))
         end
     ∧ settled (carried (peerHost near) data2 md2)
       = match dataError data2 with
         | Some _ => true
         | None => negb (thenable (Response.return_ data2))
         end)
  ∧ (∀ id1 id2 w1 w2 u1 u2 (executor : Member),
       MessageCenter (peerOptions near) = deliversLater →
       MessageCenter (peerOptions far) = deliversLater →
       serializer (peerOptions far) = serializer (peerOptions near) →
       id1 ≠ id2 →
       member (peerImplementation far) "echo" = Some executor →
       (∀ this x, executor this [x] = Returns (Resolves x)) →
       faithfulOnCall (peerOptions near)
         (buildRequest (peerHost near) "echo" [Str "x"] id1) w1 →
       faithfulOnCall (peerOptions near)
         (buildRequest (peerHost near) "echo" [Str "y"] id2) w2 →
       faithfulOnReturn (peerOptions near)
         {| Response.method := "echo"; Response.return_ := Str "x";
            Response.callId := id1; Response.error := None;
            Response.metadata := None |} u1 →
       faithfulOnReturn (peerOptions near)
         {| Response.method := "echo"; Response.return_ := Str "y";
            Response.callId := id2; Response.error := None;
            Response.metadata := None |} u2 →
       let W := world_steps near far world_init
         [At Near (Invoke (StringKey "echo") [Str "x"] id1);
          At Near (Invoke (StringKey "echo") [Str "y"] id2);
          At Near (Resume 0); At Near (Resume 0);
          Transmit Near 0; Transmit Near 1;
          At Far (Resume 0); At Far (Resume 0);
          At Far (Resume 0); At Far (Resume 0);
          At Far (Resume 0); At Far (Resume 0);
          Transmit Far 1; Transmit Far 0;
          At Near (Resume 0); At Near (Resume 0)] in
       sent (farState W) = [OnReturn u1; OnReturn u2]
       ∧ promise (nearState W) 0 = Fulfilled (Str "x")
       ∧ promise (nearState W) 1 = Fulfilled (Str "y")).
Proof.
  split.
  - intros s n1 n2 data1 data2 md1 md2 p1 p2 Hreach H1 H2 Hlt G1 G2 Hne.
    destruct (two_responses_in_either_order _ _ _ s n1 n2 data1 data2 md1
                md2 p1 p2 Hreach H1 H2 Hlt G1 G2 Hne) as (Ha & Hb & Hc & Hd).
    repeat split; try done.
    + apply (registered_apart s _ _ p1 p2
               (reachable_invariant _ _ _ s Hreach) G1 G2 Hne).
    + apply settled_carried.
    + apply settled_carried.
  - intros id1 id2 w1 w2 u1 u2 executor Hn Hf Hser Hid Himpl Hex F1 F2 F3 F4.
    exact (echo_in_reverse_order near far Hn Hf Hser id1 id2 w1 w2 u1 u2
             executor Hid Himpl Hex F1 F2 F3 F4).
Qed.



(** C5, on the input where the code departs from it.  For
    [remote.add(2, 3)] no argument carries metadata, yet the request keeps
    its metadata field, holding [null] for each argument: line 263 tests
    the arguments, not the captured metadata, for [!== null]. *)
Theorem C5_metadata_field_kept_for_primitive_arguments host id :
  let req := buildRequest host "add" [Num 2; Num 3] id in
  getMetadata host (Num 2) = None
  ∧ getMetadata host (Num 3) = None
  ∧ Request.metadata req = Some [None; None].
Proof. done. Qed.

(** What line 263 computes: the metadata field is kept exactly when some
    argument is not [null]. *)
Lemma metadata_field_kept host method args id :
  Request.metadata (buildRequest host method args id)
  = if existsb notNull args then Some (getMetadata host <$> args) else None.
Proof. reflexivity. Qed.

(** An argument that carries metadata is an object, hence not [null], so
    its call keeps the field. *)
Lemma metadata_field_kept_when_captured host method args id x md :
  x ∈ args → getMetadata host x = Some md →
  Request.metadata (buildRequest host method args id)
  = Some (getMetadata host <$> args).
Proof.
  intros Hin Hmd. rewrite metadata_field_kept.
  assert (existsb notNull args = true) as ->; [|done].
  apply existsb_exists. exists x. split; [by apply list_elem_of_In|].
  by destruct x.
Qed.

(** * The theorems at sample inputs *)

(** C1 as the spec states it fails: the call ["a"] is registered and a
    response with its callId is dispatched, but the response carries a
    thenable under [return].  [resolve] follows the thenable, so the
    response does not settle the promise; the entry is gone, the second
    response is dropped, and no event of the instance changes the promise
    any more. *)
Lemma C1_thenable_return_is_followed :
  Map.get "a" (map pingSent) = Some 0
  ∧ thenable promiseLike = true
  ∧ promise answeredWithThenable 0 = Following promiseLike
  ∧ settled (promise answeredWithThenable 0) = false
  ∧ Map.get "a" (map answeredWithThenable) = None
  ∧ tasks answeredWithThenable
    = [AfterDeserializeResponse (Some ∅)
         (Resolves (pong "a" (Str "second")))]
  ∧ step sampleHost ∅ plainOptions answeredWithThenable (Resume 0)
    = with_tasks (base.delete 0) answeredWithThenable
  ∧ ∀ es, promise (steps sampleHost ∅ plainOptions answeredWithThenable es) 0
          = Following promiseLike.
Proof.
  repeat split; try reflexivity.
  intros es. by rewrite steps_locked_stable.
Qed.

Lemma C1_witness :
  promises answeredTwice !! 0 = Some Pending
  ∧ Map.get "a"
      (map (step sampleHost ∅ plainOptions answeredTwice (Resume 0))) = None
  ∧ promise (step sampleHost ∅ plainOptions answeredTwice (Resume 0)) 0
    = Fulfilled (Str "first")
  ∧ settled
      (promise (step sampleHost ∅ plainOptions answeredTwice (Resume 0)) 0)
    = true
  ∧ promise (steps sampleHost ∅ plainOptions answeredTwice
               [Resume 0; Resume 0]) 0
    = Fulfilled (Str "first")
  ∧ settlements sampleHost ∅ plainOptions answeredTwice
      [Resume 0; Resume 0] 0 ≤ 1.
Proof.
  destruct (C1_first_response_resolves_the_call sampleHost ∅ plainOptions)
    as [H G].
  destruct (H answeredTwice 0 (Some ∅) (pong "a" (Str "first")) 0)
    as (H1 & H2 & H3 & H4 & _ & H6).
  - apply (reachable_steps _ _ _ init
             [Invoke (StringKey "ping") [] "a"; Resume 0;
              Deliver (OnReturn (pong "a" (Str "first")));
              Deliver (OnReturn (pong "a" (Str "second")))]).
    constructor.
  - reflexivity.
  - reflexivity.
  - split; [exact H1|]. split; [exact H2|]. split; [exact H3|].
    split; [exact H4|]. split; [exact (H6 [Resume 0])|].
    apply (G answeredTwice [Resume 0; Resume 0] 0).
Defined.

(** C2 as the spec states it fails: of two registered calls the first is
    answered with a thenable.  In either order of the two responses the
    second promise is fulfilled with its own result, and the first is not
    settled with what its response carries: it follows the thenable. *)
Lemma C2_thenable_return_is_followed :
  map twoCallsRegistered = [("a", 0); ("b", 1)]
  ∧ promise (steps sampleHost ∅ plainOptions twoCallsOneThenable
               [Resume 0; Resume 0]) 0 = Following promiseLike
  ∧ promise (steps sampleHost ∅ plainOptions twoCallsOneThenable
               [Resume 0; Resume 0]) 1 = Fulfilled (Str "y")
  ∧ promise (steps sampleHost ∅ plainOptions twoCallsOneThenable
               [Resume 1; Resume 0]) 0 = Following promiseLike
  ∧ promise (steps sampleHost ∅ plainOptions twoCallsOneThenable
               [Resume 1; Resume 0]) 1 = Fulfilled (Str "y")
  ∧ settled
      (promise (steps sampleHost ∅ plainOptions twoCallsOneThenable
                  [Resume 1; Resume 0]) 0) = false.
Proof. repeat split; reflexivity. Qed.

Lemma C2_witness :
  promise (steps sampleHost ∅ plainOptions twoCallsAnswered
             [Resume 0; Resume 0]) 0 = Fulfilled (Str "x")
  ∧ promise (steps sampleHost ∅ plainOptions twoCallsAnswered
               [Resume 1; Resume 0]) 0 = Fulfilled (Str "x")
  ∧ promise (steps sampleHost ∅ plainOptions twoCallsAnswered
               [Resume 1; Resume 0]) 1 = Fulfilled (Str "y")
  ∧ promise (nearState echoWorld) 0 = Fulfilled (Str "x")
  ∧ promise (nearState echoWorld) 1 = Fulfilled (Str "y").
Proof.
  destruct (C2_calls_resolve_by_their_own_callId caller echoPeer) as [H G].
  destruct (H twoCallsAnswered
              0 1 (pong "a" (Str "x")) (pong "b" (Str "y"))
              (Some ∅) (Some ∅) 0 1)
    as (_ & H1 & _ & H3 & H4 & _).
  - apply (reachable_steps _ _ _ init
             [Invoke (StringKey "ping") [] "a";
              Invoke (StringKey "ping") [] "b"; Resume 0; Resume 0;
              Deliver (OnReturn (pong "a" (Str "x")));
              Deliver (OnReturn (pong "b" (Str "y")))]).
    constructor.
  - reflexivity.
  - reflexivity.
  - lia.
  - reflexivity.
  - reflexivity.
  - simpl. discriminate.
  - destruct (G "a" "b"
                (echoRequest (Str "x") "a") (echoRequest (Str "y") "b")
                (echoResponse (Str "x") "a") (echoResponse (Str "y") "b")
                (async echo))
      as (_ & H5 & H6).
    + reflexivity.
    + reflexivity.
    + reflexivity.
    + discriminate.
    + reflexivity.
    + intros this x. reflexivity.
    + split; reflexivity.
    + split; reflexivity.
    + split; reflexivity.
    + split; reflexivity.
    + split; [exact H1|]. split; [exact H3|]. split; [exact H4|].
      split; [exact H5 | exact H6].
Defined.





Lemma C6_witness :
  promise cloneRejected 0 = Rejected (Str "could not be cloned")
  ∧ sent cloneRejected = [] ∧ map cloneRejected = []
  ∧ tasks cloneRejected = []
  ∧ sent (step sampleHost ∅ cloningOptions cloneAccepted (Resume 0))
    = [OnCall (buildRequest sampleHost "ping" [] "b")].
Proof.
  destruct (C6_serialization_failure_rejects_the_call sampleHost ∅
              cloningOptions) as (_ & H & G).
  destruct (H (step sampleHost ∅ cloningOptions init
                 (Invoke (StringKey "register") [Fun ∅] "a"))
              0 0 "a" (Str "could not be cloned"))
    as (_ & H2 & H3 & H4 & H5 & _).
  - apply (reachable_steps _ _ _ init
             [Invoke (StringKey "register") [Fun ∅] "a"]).
    constructor.
  - reflexivity.
  - destruct (G cloneAccepted (Resume 0) "b" 0) as (n & data & _ & Ht & Hs).
    + apply (reachable_steps _ _ _ init [Invoke (StringKey "ping") [] "b"]).
      constructor.
    + reflexivity.
    + simpl. discriminate.
    + split; [exact H2|]. split; [exact H3|]. split; [exact H4|].
      split; [exact H5 | reflexivity].
Defined.

(** C7 as the spec states it fails: two calls drew the identifier ["a"].
    The first is registered and outstanding when the request of the
    second is published under the same callId; the entry of the second
    then takes the place of the first, and both promises are pending. *)
Lemma C7_same_identifier_drawn_twice :
  map sameIdentifierDrawn = [("a", 0)]
  ∧ promises sameIdentifierDrawn = [Pending; Pending]
  ∧ sent sameIdentifierTwice
    = [OnCall (buildRequest sampleHost "f" [] "a");
       OnCall (buildRequest sampleHost "g" [] "a")]
  ∧ Request.callId (buildRequest sampleHost "f" [] "a")
    = Request.callId (buildRequest sampleHost "g" [] "a")
  ∧ map sameIdentifierTwice = [("a", 1)]
  ∧ promises sameIdentifierTwice = [Pending; Pending].
Proof. repeat split; reflexivity. Qed.

Lemma C7_witness :
  map twoCallsRegistered = [("a", 0); ("b", 1)]
  ∧ "a" ≠ "b"
  ∧ promises twoCallsRegistered !! 0 = Some Pending
  ∧ promises twoCallsRegistered !! 1 = Some Pending
  ∧ Map.get "a" (map sameIdentifierTwice) = Some 1
  ∧ promises (steps sampleHost ∅ plainOptions sameIdentifierTwice
                [Deliver (OnReturn (pong "a" (Str "late"))); Resume 0]) !! 0
    = Some Pending.
Proof.
  destruct (C7_registry_keys_are_distinct_but_draws_may_repeat sampleHost ∅
              plainOptions) as (H & _ & G).
  destruct (H twoCallsRegistered 0 1 "a" 0 "b" 1) as (H1 & _ & H3 & H4 & _).
  - apply reachable_steps. constructor.
  - reflexivity.
  - reflexivity.
  - lia.
  - destruct (G sameIdentifierDrawn 0 0 1 "a"
                (buildRequest sampleHost "g" [] "a"))
      as (_ & _ & H5 & H6).
    + apply (reachable_steps _ _ _ init
               [Invoke (StringKey "f") [] "a"; Invoke (StringKey "g") [] "a";
                Resume 0]).
      constructor.
    + reflexivity.
    + reflexivity.
    + split; [reflexivity|]. split; [exact H1|]. split; [exact H3|].
      split; [exact H4|]. split; [exact H5|].
      exact (proj1 (H6 [Deliver (OnReturn (pong "a" (Str "late")));
                        Resume 0])).
Defined.

Lemma C8_witness :
  silent staleDelivered
    (step sampleHost ∅ plainOptions staleDelivered (Resume 0))
  ∧ steps sampleHost ∅ plainOptions staleDelivered
      [Deliver (OnReturn (pong "stale" (Str "late"))); Resume 1]
    = staleDelivered.
Proof.
  destruct (C8_unknown_callId_changes_nothing sampleHost ∅ plainOptions
              staleDelivered (pong "stale" (Str "late")) 0 (Some ∅)
              (pong "stale" (Str "late"))) as (H1 & _ & H3).
  - reflexivity.
  - reflexivity.
  - reflexivity.
  - split; [exact H1 | exact H3].
Defined.

(** C9 as the spec states it fails: after a payload whose deserialization
    rejects, the listener's own promise is rejected with that failure and
    nothing handles it, so the dispatch is not silent. *)
Lemma C9_listener_promise_rejects :
  listenerFaults brokenCall = [Thrown (Str "Unexpected token")]
  ∧ listenerFaults brokenReturn = [Thrown (Str "Unexpected token")]
  ∧ ¬ silent init brokenCall
  ∧ ¬ silent init brokenReturn.
Proof.
  split; [reflexivity|]. split; [reflexivity|].
  split; intros (_ & _ & _ & _ & H); vm_compute in H; discriminate H.
Qed.

Lemma C9_witness :
  sent brokenCall = [] ∧ map brokenCall = [] ∧ promises brokenCall = []
  ∧ console brokenCall = [] ∧ tasks brokenCall = []
  ∧ listenerFaults brokenCall = [Thrown (Str "Unexpected token")].
Proof.
  exact (C9_deserialization_failure_stops_the_dispatch sampleHost ∅
           brokenOptions init (OnCall tt) (Str "Unexpected token") eq_refl).
Defined.

(** C10 as the spec states it fails: the transport answers the call while
    [send] runs, when the registry holds no entry for the call, and yet the
    caller's promise is settled afterwards. *)
Lemma C10_answer_during_publish_settles :
  MessageCenter eagerOptions (OnCall (buildRequest sampleHost "ping" [] "a"))
    = [OnReturn (pong "a" (Str "pong"))]
  ∧ Map.get "a" (map eagerPublishing) = None
  ∧ tasks eagerPublishing
    = [AfterDeserializeResponse (Some ∅) (Resolves (pong "a" (Str "pong")))]
  ∧ eagerPublished = with_map (Map.set "a" 0) eagerPublishing
  ∧ promise eagerAnswered 0 = Fulfilled (Str "pong")
  ∧ ¬ (∀ es, promise (steps sampleHost ∅ eagerOptions eagerPublished es) 0
             = Pending).
Proof.
  repeat split; try reflexivity.
  intros H. specialize (H [Resume 0]). vm_compute in H. discriminate H.
Qed.

Lemma C10_witness :
  sent eagerPublished = [OnCall (buildRequest sampleHost "ping" [] "a")]
  ∧ promises eagerPublished !! 0 = Some Pending
  ∧ Map.get "a" (map eagerPublished) = Some 0
  ∧ Map.get "a" (map eagerAnswered) = None
  ∧ promise eagerAnswered 0 = Fulfilled (Str "pong")
  ∧ settled (promise eagerAnswered 0) = true.
Proof.
  destruct (C10_publish_then_register sampleHost ∅ eagerOptions) as [_ H].
  destruct (H eagerCalled 0 0 "a" (buildRequest sampleHost "ping" [] "a")
              (pong "a" (Str "pong")) (pong "a" (Str "pong")))
    as (_ & H2 & H3 & H4 & _ & H6 & H7 & _).
  - apply (reachable_steps _ _ _ init [Invoke (StringKey "ping") [] "a"]).
    constructor.
  - reflexivity.
  - reflexivity.
  - reflexivity.
  - reflexivity.
  - split; [reflexivity|]. split; [exact H2|]. split; [exact H3|].
    split; [exact H4|]. split; [exact H6 | exact H7].
Defined.

(** * Further properties of the code *)

(** ** The Metadata Propagator (lines 227-249) *)

Section Metadata.

Variable capturing applying : Host.

Lemma applyMetadata_restores obj :
  has_getOwnMetadataKeys capturing = true →
  has_defineMetadata applying = true →
  applyMetadata applying (withoutMetadata obj) (getMetadata capturing obj)
  = obj.
Proof.
  intros Hget Hdef. unfold applyMetadata, getMetadata, withoutMetadata.
  rewrite Hget, Hdef.
  destruct obj; simpl; try done; by rewrite (right_id_L ∅ (∪)).
Qed.

(** X1. Metadata captured from a value by [getMetadata] and written by
    [applyMetadata] onto the same value without its metadata gives the
    value back, when reflect-metadata is loaded where it is captured and
    where it is applied. *)
Theorem X1_metadata_survives_a_lossy_serializer obj :
  has_getOwnMetadataKeys capturing = true →
  has_defineMetadata applying = true →
  applyMetadata applying (withoutMetadata obj) (getMetadata capturing obj)
  = obj.
Proof. apply applyMetadata_restores. Qed.

(** X2. The arguments of a call, after a serializer that loses their
    metadata, are given back to the implementation as the caller passed
    them: what [buildRequest] captures per argument is what
    [readMetadataOnArgs] writes back, index by index. *)
Theorem X2_arguments_get_their_metadata_back method args id :
  has_getOwnMetadataKeys capturing = true →
  has_defineMetadata applying = true →
  readMetadataOnArgs applying (withoutMetadata <$> args)
    (Request.metadata (buildRequest capturing method args id))
  = args.
Proof.
  intros Hget Hdef. rewrite metadata_field_kept.
  destruct (existsb notNull args) eqn:E; simpl.
  - apply list_eq. intros i. rewrite list_lookup_imap.
    rewrite !list_lookup_fmap. destruct (args !! i) as [x|]; simpl; [|done].
    f_equal. by apply applyMetadata_restores.
  - apply list_eq. intros i. rewrite list_lookup_fmap.
    destruct (args !! i) as [x|] eqn:Hx; simpl; [|done].
    assert (notNull x = false) as Hnull.
    { destruct (notNull x) eqn:Hn; [|done].
      assert (existsb notNull args = true) as E'; [|congruence].
      apply existsb_exists. exists x. split; [|done].
      apply list_elem_of_In. by eapply list_elem_of_lookup_2. }
    by destruct x.
Qed.

End Metadata.

(** X16. The local [apply] of the Response Dispatcher writes no metadata:
    whatever the response's metadata field and the metadata of its payload
    are, the value the pending call is rejected or resolved with is
    returned as it was, because the object that [defineMetadata] hands to
    [applyMetadata] as the record of entries has no property of its
    own. *)
Theorem X16_apply_writes_no_metadata host data metadataOnResponse obj :
  entries
    (defineMetadata host
       (applyMetadata host (Obj ∅ ∅) (Response.metadata data))
       "async-call-response"
       (applyMetadata host (Obj ∅ ∅) metadataOnResponse)) = ∅
  ∧ apply host data metadataOnResponse obj = obj
  ∧ carried host data metadataOnResponse
    = match dataError data with
      | Some e =>
          Rejected (setStack (getProp e "stack")
                      (newError host (getProp e "message")))
      | None => resolveWith (Response.return_ data)
      end.
Proof.
  split; [|split].
  - unfold defineMetadata, applyMetadata. simpl.
    destruct (Response.metadata data), (has_defineMetadata host); done.
  - apply apply_unchanged.
  - unfold carried. destruct (dataError data); by rewrite apply_unchanged.
Qed.

(** ** The Remote Surface (lines 253-269) *)

Section Surface.

Context {CallWire ReturnWire : Type}.
Context `{!Reflected CallWire, !Reflected ReturnWire}.
Variable host : Host.
Variable implementation : Implementation.
Variable options : AsyncCallOptions CallWire ReturnWire.

Implicit Types s : State CallWire ReturnWire.

(** X3. The request of a call loses its metadata field exactly when
    every argument is [null], which includes the call without
    arguments; otherwise the field holds one entry per argument. *)
Theorem X3_metadata_field_dropped_iff_all_arguments_null method args id :
  (Request.metadata (buildRequest host method args id) = None
   ↔ Forall (fun x => x = Null) args)
  ∧ (∀ metas, Request.metadata (buildRequest host method args id)
              = Some metas → length metas = length args).
Proof.
  rewrite metadata_field_kept. split.
  - destruct (existsb notNull args) eqn:E.
    + split; [done|]. intros Hall. exfalso.
      apply existsb_exists in E as (x & Hin & Hx).
      rewrite Forall_forall in Hall.
      rewrite (Hall x) in Hx; [done|]. by apply list_elem_of_In.
    + split; [|done]. intros _. apply Forall_forall. intros x Hin.
      destruct (notNull x) eqn:Hx; [|by destruct x].
      assert (existsb notNull args = true) as E'; [|congruence].
      apply existsb_exists. exists x. split; [|done].
      by apply list_elem_of_In.
  - intros metas. destruct (existsb notNull args); [|done].
    intros [= <-]. apply length_fmap.
Qed.

(** X4. A call through a key that is not a string is rejected at once
    with ["Only string can be keys"]: nothing is serialized, published or
    registered, and no later event changes the rejection. *)
Theorem X4_symbol_key_is_rejected_at_once s description args id es :
  let p := length (promises s) in
  let s' := step host implementation options s
              (Invoke (SymbolKey description) args id) in
  promise s' p = Rejected (Str "Only string can be keys")
  ∧ sent s' = sent s ∧ map s' = map s ∧ tasks s' = tasks s
  ∧ console s' = console s
  ∧ promise (steps host implementation options s' es) p
    = Rejected (Str "Only string can be keys").
Proof.
  intros p s'.
  assert (promise s' p = Rejected (Str "Only string can be keys")) as H.
  { unfold promise, s', p. simpl. by rewrite list_lookup_middle. }
  repeat split; try done.
  rewrite steps_settled_stable; [done|]. by rewrite H.
Qed.

End Surface.

(** ** Channel names (lines 131-132) *)

Lemma list_ascii_of_string_app (a b : string) :
  Strings.String.list_ascii_of_string (a +:+ b)
  = Strings.String.list_ascii_of_string a ++ Strings.String.list_ascii_of_string b.
Proof. induction a as [|c a IH]; simpl; [done|]. by rewrite IH. Qed.

Lemma append_inj_suffix (a b suffix : string) :
  a +:+ suffix = b +:+ suffix → a = b.
Proof.
  intros H. apply (f_equal Strings.String.list_ascii_of_string) in H.
  rewrite !list_ascii_of_string_app in H. apply app_inv_tail in H.
  apply (f_equal Strings.String.string_of_list_ascii) in H.
  by rewrite !Strings.String.string_of_list_ascii_of_string in H.
Qed.

(** X5. Two instances listen on the same call channel, and on the same
    return channel, exactly when they were given the same key; and no call
    channel is the return channel of any instance. *)
Theorem X5_channels_are_separated_by_key
    {CallWire ReturnWire : Type}
    (o1 o2 : AsyncCallOptions CallWire ReturnWire) :
  (CALL o1 = CALL o2 ↔ key o1 = key o2)
  ∧ (RESPONSE o1 = RESPONSE o2 ↔ key o1 = key o2)
  ∧ CALL o1 ≠ RESPONSE o2.
Proof.
  unfold CALL, RESPONSE. repeat split.
  - apply append_inj_suffix.
  - by intros ->.
  - apply append_inj_suffix.
  - by intros ->.
  - intros H. apply (f_equal Strings.String.list_ascii_of_string) in H.
    rewrite !list_ascii_of_string_app in H.
    apply (f_equal (@rev _)) in H. rewrite !rev_app_distr in H.
    simpl in H. discriminate H.
Qed.

(** ** The two dispatchers, one event at a time *)

Section Dispatchers.

Context {CallWire ReturnWire : Type}.
Context `{!Reflected CallWire, !Reflected ReturnWire}.
Variable host : Host.
Variable implementation : Implementation.
Variable options : AsyncCallOptions CallWire ReturnWire.

Implicit Types s : State CallWire ReturnWire.

Local Abbreviation now := (step host implementation options).
Local Abbreviation after := (steps host implementation options).
Local Abbreviation reachable := (reachable host implementation options).

Lemma sent_catch data err s : sent (catch options data err s) = sent s.
Proof.
  unfold catch. destruct (writeToConsole options); [|done].
  by destruct (nullish err).
Qed.

Lemma sent_afterDeserializeCall md r s :
  sent (afterDeserializeCall host implementation options md r s) = sent s.
Proof.
  unfold afterDeserializeCall. destruct r as [data|reason]; [|done].
  destruct (member implementation (Request.method data)) as [executor|].
  - destruct (callExecutor host executor md _); [|apply sent_catch].
    by destruct (writeToConsole options).
  - destruct (dontThrowOnNotImplemented options); [done|apply sent_catch].
Qed.

Lemma sent_afterDeserializeResponse md r s :
  sent (afterDeserializeResponse host options md r s) = sent s
  ∧ tasks (afterDeserializeResponse host options md r s) = tasks s.
Proof.
  destruct r as [data|reason]; simpl; [|done].
  destruct (Map.get (Response.callId data) (map s)); [|done].
  destruct (dataError data); [|done].
  by destruct (writeToConsole options).
Qed.

(** X6. The Request Dispatcher never touches the Call Registry nor any
    promise handed to a caller: neither its listener nor any of its four
    continuations changes [map] or the promises. *)
Theorem X6_request_dispatcher_leaves_registry_and_promises s n t w :
  tasks s !! n = Some t →
  ofRequestDispatcher t = true →
  map (now s (Resume n)) = map s
  ∧ promises (now s (Resume n)) = promises s
  ∧ map (now s (Deliver (OnCall w))) = map s
  ∧ promises (now s (Deliver (OnCall w))) = promises s
  ∧ sent (now s (Deliver (OnCall w))) = sent s.
Proof.
  intros Ht Hof. simpl. rewrite Ht.
  assert (∀ s', keeps (with_tasks (base.delete n) s) s' →
            map s' = map s ∧ promises s' = promises s) as Hkeeps.
  { by intros s' (? & ? & _). }
  assert (map (run host implementation options t
                 (with_tasks (base.delete n) s)) = map s
          ∧ promises (run host implementation options t
                        (with_tasks (base.delete n) s)) = promises s)
    as [H1 H2].
  { destruct t as [p id r|md r|data r|data r|r|md r]; try done; simpl;
      apply Hkeeps.
    - apply keeps_afterDeserializeCall.
    - apply keeps_afterExecutor.
    - apply keeps_afterSerializeResult.
    - apply keeps_afterSerializeError. }
  done.
Qed.

(** X7. The Response Dispatcher never publishes anything and leaves no
    continuation behind: whatever the response, resuming it only takes its
    continuation off the list and leaves what was sent as it was. *)
Theorem X7_response_dispatcher_publishes_nothing s n md r :
  tasks s !! n = Some (AfterDeserializeResponse md r) →
  sent (now s (Resume n)) = sent s
  ∧ tasks (now s (Resume n)) = base.delete n (tasks s).
Proof.
  intros Ht. simpl. rewrite Ht. simpl.
  by destruct (sent_afterDeserializeResponse md r
                 (with_tasks (base.delete n) s)) as [-> ->].
Qed.

(** X8. A registered call stays registered and pending for as long as no
    response bearing its identifier is dispatched and no other call
    registers the same identifier: no other event removes the entry or
    settles the promise. *)
Theorem X8_an_unanswered_call_stays_registered s id p es :
  reachable s →
  Map.get id (map s) = Some p →
  undisturbed host implementation options id s es = true →
  Map.get id (map (after s es)) = Some p
  ∧ promises (after s es) !! p = Some Pending.
Proof.
  intros Hreach Hget Hund.
  assert (Map.get id (map (after s es)) = Some p) as H.
  { by rewrite undisturbed_steps. }
  split; [done|].
  apply (registered_pending _ id); [|done].
  apply reachable_invariant with host implementation options.
  by apply reachable_steps.
Qed.

Local Abbreviation sourced := (sourced host options).

Lemma sourced_same s s' :
  tasks s' = tasks s → sent s' = sent s → sourced s → sourced s'.
Proof. intros Ht Hs [H1 H2]. split; by rewrite ?Ht, ?Hs. Qed.

Lemma sourced_await t s :
  fromSerializer host options t → sourced s → sourced (await t s).
Proof.
  intros Ht [H1 H2]. split; [|done]. simpl. apply Forall_app. split; [done|].
  by apply Forall_singleton.
Qed.

Lemma sourced_listen pkt s : sourced s → sourced (listen host options pkt s).
Proof. intros H. destruct pkt; by apply sourced_await. Qed.

Lemma sourced_send pkt s :
  serialized host options pkt → sourced s →
  sourced (send host options pkt s).
Proof.
  intros Hpkt [H1 H2]. unfold send.
  assert (sourced (record_sent pkt s)) as H.
  { split; [done|]. simpl. apply Forall_app. split; [done|].
    by apply Forall_singleton. }
  revert H. generalize (record_sent pkt s).
  induction (MessageCenter options pkt) as [|d ds IH]; intros s0 H0; simpl;
    [done|].
  apply IH. by apply sourced_listen.
Qed.

Lemma sourced_catch data err s :
  sourced s → sourced (catch options data err s).
Proof.
  intros H. unfold catch.
  destruct (writeToConsole options); [destruct (nullish err)|].
  - by apply (sourced_same s).
  - apply sourced_await; [by eexists|]. by apply (sourced_same s).
  - apply sourced_await; [by eexists|done].
Qed.

Lemma sourced_step s e : sourced s → sourced (now s e).
Proof.
  intros H. destruct e as [method args id|pkt|n]; simpl.
  - destruct method as [m|d]; simpl.
    + apply sourced_await; [by eexists _, _|]. by apply (sourced_same s).
    + by apply (sourced_same s).
  - by apply sourced_listen.
  - destruct (tasks s !! n) as [t|] eqn:Ht; [|done].
    assert (fromSerializer host options t) as Hfrom.
    { destruct H as [H _]. rewrite Forall_lookup in H. by eapply H. }
    assert (sourced (with_tasks (base.delete n) s)) as H0.
    { destruct H as [H1 H2]. split; [|done]. simpl.
      by apply Forall_delete. }
    set (s0 := with_tasks (base.delete n) s) in *.
    destruct t as [p id r|md r|data r|data r|r|md r]; simpl.
    + destruct r as [w|reason]; simpl.
      * apply (sourced_same (send host options (OnCall w) s0)); [done..|].
        apply sourced_send; [|done].
        destruct Hfrom as (method & args & Hr). by exists method, args, id.
      * by apply (sourced_same s0).
    + unfold afterDeserializeCall. destruct r as [data|reason];
        [|by apply (sourced_same s0)].
      destruct (member implementation (Request.method data)) as [executor|].
      * destruct (callExecutor host executor md _);
          [|by apply sourced_catch].
        apply sourced_await; [done|].
        destruct (writeToConsole options); [by apply (sourced_same s0)|done].
      * destruct (dontThrowOnNotImplemented options);
          [by apply (sourced_same s0) | by apply sourced_catch].
    + destruct r as [result|err]; simpl; [|by apply sourced_catch].
      apply sourced_await; [by eexists|done].
    + destruct r as [u|err]; simpl; [|by apply sourced_catch].
      apply sourced_send; [|done]. destruct Hfrom as (response & Hr).
      by exists response.
    + destruct r as [u|reason]; simpl; [|by apply (sourced_same s0)].
      apply sourced_send; [|done]. destruct Hfrom as (response & Hr).
      by exists response.
    + destruct (sent_afterDeserializeResponse md r s0) as [Hs Hts].
      by apply (sourced_same s0).
Qed.

Lemma reachable_sourced s : reachable s → sourced s.
Proof.
  induction 1 as [|s e _ IH]; [by split | by apply sourced_step].
Qed.

(** X9. Whatever is handed to [message.send] came out of the serializer:
    in every reachable state each published packet is what the serializer
    resolved with, for a request that the proxy built on the call channel
    and for a response on the return channel.  Step by step, an event
    appends to what was sent exactly the payload of the serialization
    whose continuation it resumes, and nothing otherwise; in particular a
    call publishes nothing before its request is serialized. *)
Theorem X9_only_serialized_payloads_are_published :
  (∀ s, reachable s → Forall (serialized host options) (sent s))
  ∧ (∀ s e, sent (now s e) = sent s ++ published s e).
Proof.
  split; [intros s Hreach; by apply reachable_sourced|].
  intros s e.
  destruct e as [method args id|pkt|n]; simpl.
  - rewrite app_nil_r. by destruct method.
  - rewrite app_nil_r. by destruct (listen_frame host options pkt s) as (_&_&_&?&_).
  - destruct (tasks s !! n) as [t|]; [|by rewrite app_nil_r].
    set (s0 := with_tasks (base.delete n) s).
    destruct t as [p id r|md r|data r|data r|r|md r]; simpl.
    + destruct r as [w|reason]; simpl; [|by rewrite app_nil_r].
      by destruct (send_frame host options (OnCall w) s0) as (_&_&_&?&_).
    + rewrite app_nil_r. apply (sent_afterDeserializeCall md r s0).
    + rewrite app_nil_r. destruct r; [done|]. apply (sent_catch data _ s0).
    + destruct r as [u|err]; simpl.
      * by destruct (send_frame host options (OnReturn u) s0) as (_&_&_&?&_).
      * rewrite app_nil_r. apply (sent_catch data _ s0).
    + destruct r as [u|reason]; simpl; [|by rewrite app_nil_r].
      by destruct (send_frame host options (OnReturn u) s0) as (_&_&_&?&_).
    + rewrite app_nil_r.
      by destruct (sent_afterDeserializeResponse md r s0) as [? _].
Qed.

(** X10. When an implementation rejects with a value that is neither
    [null] nor [undefined] and the serializer accepts the error response,
    that response is published and the listener ends without a fault; the
    response carries [{message, stack}] for an [Error] and the rejection
    value itself otherwise. *)
Theorem X10_implementation_failure_is_answered s n data err u :
  tasks s !! n = Some (AfterExecutor data (Rejects err)) →
  nullish err = false →
  serialization (onReturn (serializer options)) (errorResponse data err)
    = Resolves u →
  let s' := after s [Resume n; Resume (length (tasks s) - 1)] in
  sent s' = sent s ++ [OnReturn u]
  ∧ listenerFaults s' = listenerFaults s
  ∧ map s' = map s ∧ promises s' = promises s.
Proof.
  intros Ht Hnull Hser.
  assert (length (base.delete n (tasks s)) = length (tasks s) - 1) as Hlen.
  { rewrite length_delete; [done|]. by eexists. }
  simpl. rewrite Ht. simpl. rewrite <- Hlen.
  by apply (catch_answered host implementation options
              (with_tasks (base.delete n) s)).
Qed.

(** X17. When the member found under the requested name throws as it is
    called, which is also what the call of a member that is not a
    function does, the failure is caught like a rejection, but the call
    is not logged (line 155 is not reached): the error is logged when
    logging is on, the error response is serialized, and once that
    serialization has resolved the response is published, without a
    listener fault. *)
Theorem X17_a_member_that_throws_is_answered
    s n md data (executor : Member) err u :
  tasks s !! n = Some (AfterDeserializeCall md (Resolves data)) →
  member implementation (Request.method data) = Some executor →
  callExecutor host executor md
    (readMetadataOnArgs host (Request.args data) (Request.metadata data))
  = Throws err →
  nullish err = false →
  serialization (onReturn (serializer options)) (errorResponse data err)
    = Resolves u →
  let s1 := now s (Resume n) in
  let s2 := now s1 (Resume (length (tasks s) - 1)) in
  console s1
  = console s
    ++ (if writeToConsole options
        then [console_error (getProp err "message") (Request.callId data)
                (getProp err "stack")]
        else [])
  ∧ tasks s1 = base.delete n (tasks s) ++ [AfterSerializeError (Resolves u)]
  ∧ sent s2 = sent s ++ [OnReturn u]
  ∧ listenerFaults s2 = listenerFaults s
  ∧ map s2 = map s ∧ promises s2 = promises s.
Proof.
  intros Ht Himpl Hcall Hnull Hser s1 s2.
  assert (length (base.delete n (tasks s)) = length (tasks s) - 1) as Hlen.
  { rewrite length_delete; [done|]. by eexists. }
  assert (s1 = catch options data err (with_tasks (base.delete n) s)) as Hs1.
  { unfold s1. simpl. rewrite Ht. simpl. unfold afterDeserializeCall.
    by rewrite Himpl, Hcall. }
  split; [|split].
  - rewrite Hs1. unfold catch. rewrite Hnull.
    destruct (writeToConsole options); simpl; [done|by rewrite app_nil_r].
  - rewrite Hs1. unfold catch. rewrite Hnull, Hser.
    by destruct (writeToConsole options).
  - unfold s2. rewrite Hs1, <- Hlen.
    by apply (catch_answered host implementation options
                (with_tasks (base.delete n) s)).
Qed.

(** X11. When an implementation rejects with [null] or [undefined], the
    two choices of [writeToConsole] part ways: with logging, reading
    [err.message] throws inside [catch], no response is serialized or sent
    and the listener ends with a [TypeError]; without logging the error
    response is serialized with the rejection value under [error]. *)
Theorem X11_nullish_failure_is_answered_only_without_logging s n data err :
  tasks s !! n = Some (AfterExecutor data (Rejects err)) →
  nullish err = true →
  let loud := step host implementation (logging true options) s
                (Resume n) in
  let quiet := step host implementation (logging false options) s
                 (Resume n) in
  sent loud = sent s
  ∧ tasks loud = base.delete n (tasks s)
  ∧ console loud = console s
  ∧ listenerFaults loud = listenerFaults s ++ [TypeError]
  ∧ tasks quiet
    = base.delete n (tasks s)
      ++ [AfterSerializeError
            (serialization (onReturn (serializer options))
               (errorResponse data err))]
  ∧ listenerFaults quiet = listenerFaults s.
Proof.
  intros Ht Hnull. simpl. rewrite Ht. simpl. unfold catch. simpl.
  rewrite Hnull. done.
Qed.

End Dispatchers.

(** ** Logging (lines 142, 155, 176, 207) *)

Section Logging.

Context {CallWire ReturnWire : Type}.
Context `{!Reflected CallWire, !Reflected ReturnWire}.
Variable host : Host.
Variable implementation : Implementation.

Implicit Types s : State CallWire ReturnWire.
Implicit Types o : AsyncCallOptions CallWire ReturnWire.

Lemma mute_listens o b pkts s :
  mute (foldl (fun acc d => listen host o d acc) s pkts)
  = foldl (fun acc d => listen host (logging b o) d acc) (mute s) pkts.
Proof.
  revert s. induction pkts as [|pkt pkts IH]; intros s; simpl; [done|].
  rewrite IH. f_equal. by destruct pkt.
Qed.

Lemma mute_send o b pkt s :
  mute (send host o pkt s) = send host (logging b o) pkt (mute s).
Proof. unfold send. by rewrite (mute_listens o b). Qed.

Lemma mute_send_normal o pkt s :
  mute (send host o pkt s)
  = mute (send host (logging false o) pkt (mute s)).
Proof.
  rewrite (mute_send o false). by rewrite (mute_send (logging false o) false).
Qed.

Lemma mute_catch o data err s :
  nullish err = false →
  mute (catch o data err s) = mute (catch (logging false o) data err (mute s)).
Proof.
  intros Hnull. unfold catch. simpl. rewrite Hnull.
  by destruct (writeToConsole o).
Qed.

Lemma mute_run o t s :
  catchesNullish host implementation t = false →
  mute (run host implementation o t s)
  = mute (run host implementation (logging false o) t (mute s)).
Proof.
  intros Hcalm.
  destruct t as [p id r|md r|data r|data r|r|md r]; simpl in *.
  - destruct r as [w|reason]; simpl; [|done].
    change (with_map (Map.set id p) (mute (send host o (OnCall w) s))
            = with_map (Map.set id p)
                (mute (send host (logging false o) (OnCall w) (mute s)))).
    by rewrite mute_send_normal.
  - destruct r as [data|reason]; [|done]. unfold afterDeserializeCall. simpl.
    destruct (member implementation (Request.method data)) as [executor|].
    + destruct (callExecutor host executor md _); [|by apply mute_catch].
      by destruct (writeToConsole o).
    + destruct (dontThrowOnNotImplemented o); [done|].
      by apply mute_catch.
  - destruct r as [result|err]; [done|]. by apply mute_catch.
  - destruct r as [u|err]; simpl.
    + apply mute_send_normal.
    + by apply mute_catch.
  - destruct r as [u|reason]; simpl; [|done]. apply mute_send_normal.
  - destruct r as [data|reason]; simpl; [|done].
    destruct (Map.get (Response.callId data) (map s)); [|done].
    destruct (dataError data); [|done].
    by destruct (writeToConsole o).
Qed.

Lemma mute_step o s e :
  resumesNullish host implementation s e = false →
  mute (step host implementation o s e)
  = mute (step host implementation (logging false o) (mute s) e).
Proof.
  intros Hcalm. destruct e as [method args id|pkt|n]; simpl in *.
  - by destruct method.
  - by destruct pkt.
  - destruct (tasks s !! n) as [t|]; [|done].
    rewrite (mute_run o t _ Hcalm). done.
Qed.

Lemma mute_steps o b es s s' :
  mute s = mute s' →
  calm host implementation o s es = true →
  mute (steps host implementation o s es)
  = mute (steps host implementation (logging b o) s' es).
Proof.
  revert s s'. induction es as [|e es IH]; intros s s' Hs Hcalm; simpl;
    [done|].
  simpl in Hcalm. apply andb_prop in Hcalm as [He Hes].
  apply negb_true_iff in He.
  assert (resumesNullish host implementation s' e = false) as He'.
  { destruct e; try done. simpl in *.
    by replace (tasks s') with (tasks s) by (by injection Hs). }
  apply IH; [|done].
  rewrite (mute_step o s e He), (mute_step (logging b o) s' e He').
  by rewrite Hs.
Qed.

(** X12. Logging is only observed on the console: two instances that
    differ in [writeToConsole] alone go through the same registry,
    promises, publications, continuations and listener faults on every
    run in which no implementation (and no serializer, for a result)
    rejects with [null] or [undefined]. *)
Theorem X12_logging_changes_only_the_console
    (o : AsyncCallOptions CallWire ReturnWire) b s es :
  calm host implementation o s es = true →
  mute (steps host implementation o s es)
  = mute (steps host implementation (logging b o) s es).
Proof. by apply mute_steps. Qed.

End Logging.

(** ** How much an instance publishes *)

Section Budget.

Context {CallWire ReturnWire : Type}.
Context `{!Reflected CallWire, !Reflected ReturnWire}.
Variable host : Host.
Variable implementation : Implementation.
Variable options : AsyncCallOptions CallWire ReturnWire.

Hypothesis transport_delivers_later : ∀ pkt, MessageCenter options pkt = [].

Implicit Types s : State CallWire ReturnWire.

(** What was published plus what is still suspended. *)
Local Abbreviation load s := (length (sent s) + length (tasks s)).

Lemma load_send pkt s : load (send host options pkt s) = S (load s).
Proof.
  unfold send. rewrite transport_delivers_later. simpl.
  rewrite length_app. simpl. lia.
Qed.

Lemma load_catch data err s : load (catch options data err s) ≤ S (load s).
Proof.
  unfold catch, await.
  destruct (writeToConsole options); [destruct (nullish err)|];
    cbn; rewrite ?length_app; cbn; lia.
Qed.

Lemma load_run t s :
  load (run host implementation options t s) ≤ S (load s).
Proof.
  destruct t as [p id r|md r|data r|data r|r|md r]; simpl.
  - destruct r as [w|reason]; simpl.
    + change (load (send host options (OnCall w) s) ≤ S (load s)).
      rewrite load_send. lia.
    + lia.
  - unfold afterDeserializeCall. destruct r as [data|reason]; simpl; [|lia].
    destruct (member implementation (Request.method data)) as [executor|].
    + destruct (callExecutor host executor md _); [|apply load_catch].
      unfold await.
      destruct (writeToConsole options); cbn; rewrite length_app; cbn; lia.
    + destruct (dontThrowOnNotImplemented options); simpl; [lia|].
      apply load_catch.
  - destruct r as [result|err]; simpl; [|apply load_catch].
    unfold await. cbn. rewrite length_app. cbn. lia.
  - destruct r as [u|err]; simpl; [|apply load_catch].
    rewrite load_send. lia.
  - destruct r as [u|reason]; simpl; [|lia]. rewrite load_send. lia.
  - destruct (sent_afterDeserializeResponse host options md r s)
      as [Hs Ht].
    rewrite Hs, Ht. lia.
Qed.

Lemma load_step s e :
  load (step host implementation options s e)
  ≤ load s + (if stimulus e then 1 else 0).
Proof.
  destruct e as [method args id|pkt|n]; simpl.
  - destruct method; unfold await; cbn; rewrite ?length_app; cbn; lia.
  - destruct pkt; unfold await; cbn; rewrite length_app; cbn; lia.
  - destruct (tasks s !! n) as [t|] eqn:Ht; [|lia].
    pose proof (load_run t (with_tasks (base.delete n) s)) as H.
    simpl in H. rewrite length_delete in H by (by eexists).
    apply lookup_lt_Some in Ht. lia.
Qed.

(** X15. Over a transport that delivers only after [send] has returned,
    an instance never publishes more than it was asked for: what it has
    published plus what it still has suspended grows by at most one with
    each call and each incoming payload, and never when a continuation is
    resumed; from the initial state the packets published never outnumber
    the calls and the incoming payloads. *)
Theorem X15_at_most_one_publication_per_call_or_payload s es :
  length (sent (steps host implementation options s es))
  + length (tasks (steps host implementation options s es))
  ≤ length (sent s) + length (tasks s) + stimuli es.
Proof.
  revert s. induction es as [|e es IH]; intros s.
  - unfold stimuli. simpl. lia.
  - specialize (IH (step host implementation options s e)).
    pose proof (load_step s e) as H.
    change (steps host implementation options s (e :: es))
      with (steps host implementation options
              (step host implementation options s e) es).
    change (stimuli (e :: es))
      with ((if stimulus e then 1 else 0) + stimuli es).
    lia.
Qed.

End Budget.

(** ** A call from one instance to the other *)

Lemma buildRequest_method host method args id :
  Request.method (buildRequest host method args id) = method.
Proof. reflexivity. Qed.

Lemma buildRequest_args host method args id :
  Request.args (buildRequest host method args id) = args.
Proof. reflexivity. Qed.

Lemma buildRequest_callId host method args id :
  Request.callId (buildRequest host method args id) = id.
Proof. reflexivity. Qed.

(** Evaluation of a handler that keeps the request of the call folded. *)
Ltac evaluate :=
  repeat progress
    (cbn -[gmap_lookup member apply getProp errorInfo notImplemented
           buildRequest readMetadataOnArgs getMetadata resolveWith];
     cbv [with_map with_promises with_tasks write record_sent fail await
          settle init catch errorResponse];
     rewrite ?apply_unchanged, ?getProp_errorInfo_message,
       ?getProp_errorInfo_stack, ?getProp_Err_message, ?getProp_Err_stack,
       ?truthy_errorInfo, ?newError_Str, ?String.eqb_refl,
       ?buildRequest_method, ?buildRequest_args, ?buildRequest_callId).

Ltac evaluate_in H :=
  cbn -[gmap_lookup member apply getProp errorInfo notImplemented
        buildRequest readMetadataOnArgs getMetadata resolveWith] in H.

Ltac call_member' Himpl Hmeta Hex :=
  rewrite Himpl; evaluate; rewrite ?Hmeta; evaluate; rewrite Hex.

Ltac world_event' tac :=
  erewrite world_steps_cons; [|evaluate; tac; evaluate; reflexivity].

Section Calls.

Context {CallWire ReturnWire : Type}.
Context `{!Reflected CallWire, !Reflected ReturnWire}.
Variable near far : Peer CallWire ReturnWire.

Hypothesis near_transport : MessageCenter (peerOptions near) = deliversLater.
Hypothesis far_transport : MessageCenter (peerOptions far) = deliversLater.
Hypothesis shared_serializer :
  serializer (peerOptions far) = serializer (peerOptions near).

(** X13. A call of a method that the far side implements, over a
    serializer that gives the request and the response back unchanged:
    the implementation is applied to the arguments with their metadata
    read back, its result travels in a response with the callId of the
    request, and the caller's promise is resolved with that result:
    fulfilled with it, unless it is a thenable. *)
Theorem X13_a_call_is_fulfilled_with_the_result
    method args id w u (executor : Member) result :
  member (peerImplementation far) method = Some executor →
  (∀ this,
     executor this
       (readMetadataOnArgs (peerHost far) args
          (Request.metadata (buildRequest (peerHost near) method args id)))
     = Returns (Resolves result)) →
  faithfulOnCall (peerOptions near)
    (buildRequest (peerHost near) method args id) w →
  faithfulOnReturn (peerOptions near)
    {| Response.method := method; Response.return_ := result;
       Response.callId := id; Response.error := None;
       Response.metadata := getMetadata (peerHost far) result |} u →
  let W := world_steps near far world_init
    [At Near (Invoke (StringKey method) args id); At Near (Resume 0);
     Transmit Near 0;
     At Far (Resume 0); At Far (Resume 0); At Far (Resume 0);
     Transmit Far 0; At Near (Resume 0)] in
  sent (farState W) = [OnReturn u]
  ∧ promise (nearState W) 0 = resolveWith result
  ∧ (thenable result = false → promise (nearState W) 0 = Fulfilled result)
  ∧ map (nearState W) = [].
Proof.
  revert near_transport far_transport shared_serializer.
  destruct near as [hostN implN [keyN serN mcN dtN wcN]].
  destruct far as [hostF implF [keyF serF mcF dtF wcF]].
  unfold faithfulOnCall, faithfulOnReturn.
  intros Hm1 Hm2 Hser Himpl Hex [Hs1 Hd1] [Hs2 Hd2].
  evaluate_in Hm1. evaluate_in Hm2. evaluate_in Hser. evaluate_in Himpl.
  evaluate_in Hex.
  evaluate_in Hs1. evaluate_in Hd1. evaluate_in Hs2. evaluate_in Hd2.
  subst mcN mcF serF.
  destruct wcF, (getMetadata hostF w) eqn:Hmeta.
  all: world_event' ltac:(rewrite Hs1).
  all: world_event' idtac.
  all: world_event' ltac:(rewrite Hd1).
  all: world_event' ltac:(call_member' Himpl Hmeta Hex).
  all: world_event' ltac:(rewrite Hs2).
  all: world_event' idtac.
  all: world_event' ltac:(rewrite Hd2).
  all: world_event' idtac.
  all: repeat split; try reflexivity.
  all: intros Hthen; unfold promise; simpl; unfold resolveWith;
    by rewrite Hthen.
Qed.

(** X14. When the serializer rejects the response that carries the
    result, with an [Error], the failure takes the path of an
    implementation failure: an error response with that message and stack
    is sent instead, and the caller's promise is rejected with an [Error]
    of that message and stack. *)
Theorem X14_a_result_that_cannot_be_serialized_rejects_the_call
    method args id w u (executor : Member) result md message stack :
  member (peerImplementation far) method = Some executor →
  (∀ this,
     executor this
       (readMetadataOnArgs (peerHost far) args
          (Request.metadata (buildRequest (peerHost near) method args id)))
     = Returns (Resolves result)) →
  faithfulOnCall (peerOptions near)
    (buildRequest (peerHost near) method args id) w →
  serialization (onReturn (serializer (peerOptions near)))
    {| Response.method := method; Response.return_ := result;
       Response.callId := id; Response.error := None;
       Response.metadata := getMetadata (peerHost far) result |}
  = Rejects (Err md message stack) →
  faithfulOnReturn (peerOptions near)
    {| Response.method := method;
       Response.error := Some (errorInfo (Str message) stack);
       Response.return_ := Undefined;
       Response.callId := id;
       Response.metadata := None |} u →
  let W := world_steps near far world_init
    [At Near (Invoke (StringKey method) args id); At Near (Resume 0);
     Transmit Near 0;
     At Far (Resume 0); At Far (Resume 0); At Far (Resume 0);
     At Far (Resume 0);
     Transmit Far 0; At Near (Resume 0)] in
  sent (farState W) = [OnReturn u]
  ∧ listenerFaults (farState W) = []
  ∧ promise (nearState W) 0 = Rejected (Err ∅ message stack).
Proof.
  revert near_transport far_transport shared_serializer.
  destruct near as [hostN implN [keyN serN mcN dtN wcN]].
  destruct far as [hostF implF [keyF serF mcF dtF wcF]].
  unfold faithfulOnCall, faithfulOnReturn.
  intros Hm1 Hm2 Hser Himpl Hex [Hs1 Hd1] Hs2 [Hs3 Hd3].
  evaluate_in Hm1. evaluate_in Hm2. evaluate_in Hser. evaluate_in Himpl.
  evaluate_in Hex.
  evaluate_in Hs1. evaluate_in Hd1. evaluate_in Hs2. evaluate_in Hs3.
  evaluate_in Hd3.
  subst mcN mcF serF.
  destruct wcF, wcN, (getMetadata hostF w) eqn:Hmeta.
  all: world_event' ltac:(rewrite Hs1).
  all: world_event' idtac.
  all: world_event' ltac:(rewrite Hd1).
  all: world_event' ltac:(call_member' Himpl Hmeta Hex).
  all: world_event' ltac:(rewrite Hs2).
  all: world_event' ltac:(rewrite Hs3).
  all: world_event' idtac.
  all: world_event' ltac:(rewrite Hd3).
  all: world_event' idtac.
  all: repeat split; reflexivity.
Qed.

End Calls.

(** * The further properties at sample inputs *)

Lemma X1_witness :
  applyMetadata sampleHost (withoutMetadata tagged)
    (getMetadata sampleHost tagged) = tagged.
Proof.
  apply (X1_metadata_survives_a_lossy_serializer sampleHost sampleHost tagged).
  - reflexivity.
  - reflexivity.
Defined.

Lemma X2_witness :
  readMetadataOnArgs sampleHost [Num 1; withoutMetadata tagged]
    (Request.metadata (buildRequest sampleHost "save" [Num 1; tagged] "a"))
  = [Num 1; tagged].
Proof.
  apply (X2_arguments_get_their_metadata_back sampleHost sampleHost "save"
           [Num 1; tagged] "a").
  - reflexivity.
  - reflexivity.
Defined.

Lemma X6_witness :
  map (step sampleHost {[ "echo" := echo ]} plainOptions callReceived
         (Resume 0)) = [("a", 0); ("b", 1)]
  ∧ promises (step sampleHost {[ "echo" := echo ]} plainOptions callReceived
                (Resume 0)) = [Pending; Pending].
Proof.
  destruct (X6_request_dispatcher_leaves_registry_and_promises sampleHost
              {[ "echo" := echo ]} plainOptions callReceived 0
              (AfterDeserializeCall (Some ∅)
                 (Resolves (echoRequest (Str "x") "z")))
              (echoRequest (Str "x") "z"))
    as (H1 & H2 & _).
  - reflexivity.
  - reflexivity.
  - split; [exact H1 | exact H2].
Defined.

Lemma X7_witness :
  sent (step sampleHost ∅ plainOptions answeredTwice (Resume 0))
  = sent answeredTwice
  ∧ tasks (step sampleHost ∅ plainOptions answeredTwice (Resume 0))
    = [AfterDeserializeResponse (Some ∅)
         (Resolves (pong "a" (Str "second")))].
Proof.
  exact (X7_response_dispatcher_publishes_nothing sampleHost ∅ plainOptions
           answeredTwice 0 (Some ∅) (Resolves (pong "a" (Str "first")))
           eq_refl).
Defined.

Lemma X8_witness :
  Map.get "a" (map (steps sampleHost ∅ plainOptions twoCallsRegistered
                      otherTraffic)) = Some 0
  ∧ promises (steps sampleHost ∅ plainOptions twoCallsRegistered
                otherTraffic) !! 0 = Some Pending.
Proof.
  apply (X8_an_unanswered_call_stays_registered sampleHost ∅ plainOptions
           twoCallsRegistered "a" 0 otherTraffic).
  - apply reachable_steps. constructor.
  - reflexivity.
  - reflexivity.
Defined.

Lemma X9_witness :
  Forall (serialized sampleHost plainOptions)
    (sent (steps sampleHost {[ "echo" := echo ]} plainOptions init busyRun))
  ∧ length (sent (steps sampleHost {[ "echo" := echo ]} plainOptions init
                    busyRun)) = 2.
Proof.
  split; [|reflexivity].
  apply (X9_only_serialized_payloads_are_published sampleHost
           {[ "echo" := echo ]} plainOptions).
  apply reachable_steps. constructor.
Defined.

Lemma X10_witness :
  sent (steps sampleHost {[ "fail" := failWith (Str "oops") ]} plainOptions
          (executorFailed (Str "oops")) [Resume 0; Resume 0])
  = [OnReturn (errorResponse failRequest (Str "oops"))]
  ∧ listenerFaults
      (steps sampleHost {[ "fail" := failWith (Str "oops") ]} plainOptions
         (executorFailed (Str "oops")) [Resume 0; Resume 0]) = [].
Proof.
  destruct (X10_implementation_failure_is_answered sampleHost
              {[ "fail" := failWith (Str "oops") ]} plainOptions
              (executorFailed (Str "oops")) 0 failRequest (Str "oops")
              (errorResponse failRequest (Str "oops")))
    as (H1 & H2 & _).
  - reflexivity.
  - reflexivity.
  - reflexivity.
  - split; [exact H1 | exact H2].
Defined.

Lemma X11_witness :
  sent (step sampleHost {[ "fail" := failWith Null ]}
          (logging true plainOptions) (executorFailed Null) (Resume 0)) = []
  ∧ tasks (step sampleHost {[ "fail" := failWith Null ]}
             (logging true plainOptions) (executorFailed Null) (Resume 0))
    = []
  ∧ listenerFaults
      (step sampleHost {[ "fail" := failWith Null ]}
         (logging true plainOptions) (executorFailed Null) (Resume 0))
    = [TypeError]
  ∧ tasks (step sampleHost {[ "fail" := failWith Null ]}
             (logging false plainOptions) (executorFailed Null) (Resume 0))
    = [AfterSerializeError (Resolves (errorResponse failRequest Null))].
Proof.
  destruct (X11_nullish_failure_is_answered_only_without_logging sampleHost
              {[ "fail" := failWith Null ]} plainOptions
              (executorFailed Null) 0 failRequest Null)
    as (H1 & H2 & _ & H4 & H5 & _).
  - reflexivity.
  - reflexivity.
  - split; [exact H1|]. split; [exact H2|]. split; [exact H4 | exact H5].
Defined.

Lemma X12_witness :
  mute (steps sampleHost {[ "echo" := echo ]} plainOptions init busyRun)
  = mute (steps sampleHost {[ "echo" := echo ]} (logging false plainOptions)
            init busyRun).
Proof.
  apply (X12_logging_changes_only_the_console sampleHost {[ "echo" := echo ]}
           plainOptions false init busyRun).
  reflexivity.
Defined.

Lemma X13_witness :
  sent (farState addWorld) = [OnReturn addResponse]
  ∧ promise (nearState addWorld) 0 = Fulfilled (Num 5)
  ∧ map (nearState addWorld) = [].
Proof.
  cut (sent (farState addWorld) = [OnReturn addResponse]
       ∧ promise (nearState addWorld) 0 = resolveWith (Num 5)
       ∧ (thenable (Num 5) = false
          → promise (nearState addWorld) 0 = Fulfilled (Num 5))
       ∧ map (nearState addWorld) = []).
  { intros (H1 & _ & H3 & H4). split; [exact H1|].
    split; [exact (H3 eq_refl) | exact H4]. }
  apply (X13_a_call_is_fulfilled_with_the_result caller addPeer eq_refl
           eq_refl eq_refl "add" [Num 2; Num 3] "a" addRequest addResponse
           (async add) (Num 5)).
  - reflexivity.
  - intros this. reflexivity.
  - split; reflexivity.
  - split; reflexivity.
Defined.

Lemma X14_witness :
  sent (farState handlerWorld) = [OnReturn handlerRefused]
  ∧ listenerFaults (farState handlerWorld) = []
  ∧ promise (nearState handlerWorld) 0
    = Rejected (Err ∅ "could not be cloned" (Str "DataCloneError")).
Proof.
  apply (X14_a_result_that_cannot_be_serialized_rejects_the_call
           cloningCaller handlerPeer eq_refl eq_refl eq_refl
           "handler" [] "a" (buildRequest sampleHost "handler" [] "a")
           handlerRefused (async (fun _ _ => Resolves (Fun ∅))) (Fun ∅) ∅).
  - reflexivity.
  - intros this. reflexivity.
  - split; reflexivity.
  - reflexivity.
  - split; reflexivity.
Defined.

Lemma X15_witness :
  length (sent (steps sampleHost {[ "echo" := echo ]} plainOptions init
                  busyRun))
  + length (tasks (steps sampleHost {[ "echo" := echo ]} plainOptions init
                     busyRun))
  ≤ 0 + 0 + stimuli busyRun.
Proof.
  apply (X15_at_most_one_publication_per_call_or_payload sampleHost
           {[ "echo" := echo ]} plainOptions).
  intros pkt. reflexivity.
Defined.

Lemma X17_witness :
  console (step sampleHost parser plainOptions parseReceived (Resume 0))
  = [console_error (Str "bad input") "z" (Str "Error: bad input")]
  ∧ sent (steps sampleHost parser plainOptions parseReceived
            [Resume 0; Resume 0])
    = [OnReturn (errorResponse parseRequest badInput)]
  ∧ listenerFaults (steps sampleHost parser plainOptions parseReceived
                      [Resume 0; Resume 0]) = [].
Proof.
  destruct (X17_a_member_that_throws_is_answered sampleHost parser
              plainOptions parseReceived 0 (Some ∅) parseRequest
              (fun _ _ => Throws badInput) badInput
              (errorResponse parseRequest badInput))
    as (H1 & _ & H3 & H4 & _).
  - reflexivity.
  - reflexivity.
  - reflexivity.
  - reflexivity.
  - reflexivity.
  - split; [exact H1|]. split; [exact H3 | exact H4].
Defined.
